(** * go-git-tag: a shallow embedding of package [gittag]

    The package is a thin layer over the [git] executable: every exported
    function builds an argument vector, spawns the process and maps the
    process error to its own error.  The embedding has three layers:

    - [GoStrings]: the two functions of Go's [strings] package the code
      calls, [TrimSpace] and [Split], over byte strings;
    - [GitTag]: the functions of [gittag.go], [delete.go] and [find.go],
      written in a state monad over an arbitrary external tool [spawn];
      the state also keeps the history of spawned commands;
    - [SimGit]: a small executable model of the tag commands of git, used
      to run the functions on concrete repositories. *)

From Stdlib Require Import String Ascii List Arith NArith Bool Lia.
From Stdlib Require Import DecimalString.
Import ListNotations.
Open Scope string_scope.

(** ** Go's [strings] package *)

Module GoStrings.

(** A Go [string] is a sequence of bytes; [ascii] is Rocq's 8-bit
    character, so [string] is taken as it is. *)

Definition byte_is (n : N) (c : ascii) : bool := (N_of_ascii c =? n)%N.

Definition byte_in (lo hi : N) (c : ascii) : bool :=
  ((lo <=? N_of_ascii c) && (N_of_ascii c <=? hi))%N.

(** [unicode.IsSpace]: the code points with the White_Space property,
    ['\t'], ['\n'], ['\v'], ['\f'], ['\r'], [' '], U+0085, U+00A0, U+1680,
    U+2000..U+200A, U+2028, U+2029, U+202F, U+205F, U+3000. *)
Definition IsSpace (r : N) : bool :=
  ((9 <=? r) && (r <=? 13) || (r =? 32) || (r =? 0x85) || (r =? 0xA0)
   || (r =? 0x1680) || (0x2000 <=? r) && (r <=? 0x200A)
   || (r =? 0x2028) || (r =? 0x2029) || (r =? 0x202F) || (r =? 0x205F)
   || (r =? 0x3000))%N.

(** [utf8.EncodeRune] for the code points below U+10000 that are not
    surrogates (all of White_Space lies there). *)
Definition EncodeRune (r : N) : list ascii :=
  if (r <? 0x80)%N then [ascii_of_N r]
  else if (r <? 0x800)%N then
    [ascii_of_N (0xC0 + r / 64); ascii_of_N (0x80 + r mod 64)]
  else
    [ascii_of_N (0xE0 + r / 4096); ascii_of_N (0x80 + (r / 64) mod 64);
     ascii_of_N (0x80 + r mod 64)].

(** The UTF-8 encodings of the white space code points, by length.  A
    byte sequence decodes to a white space rune exactly when it is one of
    these (UTF-8 decoding in Go rejects over-long forms), so trimming white
    space runes is trimming these byte sequences. *)
Definition space1 (a : ascii) : bool :=
  byte_in 9 13 a || byte_is 32 a.

Definition space2 (a b : ascii) : bool :=
  byte_is 0xC2 a && (byte_is 0x85 b || byte_is 0xA0 b).

Definition space3 (a b c : ascii) : bool :=
  byte_is 0xE1 a && byte_is 0x9A b && byte_is 0x80 c
  || byte_is 0xE2 a && byte_is 0x80 b
     && (byte_in 0x80 0x8A c || byte_is 0xA8 c || byte_is 0xA9 c
         || byte_is 0xAF c)
  || byte_is 0xE2 a && byte_is 0x81 b && byte_is 0x9F c
  || byte_is 0xE3 a && byte_is 0x80 b && byte_is 0x80 c.

(** Dropping, from the front, every leading group of one, two or three
    bytes that [p1], [p2] or [p3] accepts, until a position where none
    does. *)
Fixpoint trim_with (p1 : ascii -> bool) (p2 : ascii -> ascii -> bool)
  (p3 : ascii -> ascii -> ascii -> bool) (l : list ascii) : list ascii :=
  match l with
  | [] => []
  | a :: l1 =>
      if p1 a then trim_with p1 p2 p3 l1
      else match l1 with
           | [] => l
           | b :: l2 =>
               if p2 a b then trim_with p1 p2 p3 l2
               else match l2 with
                    | [] => l
                    | c :: l3 =>
                        if p3 a b c then trim_with p1 p2 p3 l3 else l
                    end
           end
  end.

(** [strings.TrimLeftFunc(s, unicode.IsSpace)]: drop white space runes
    from the front until a rune that is not white space (or an invalid
    byte) is met. *)
Definition trim_front : list ascii -> list ascii :=
  trim_with space1 space2 space3.

(** The same on the reversed string, for [strings.TrimRightFunc]: the
    encodings are read last byte first. *)
Definition trim_front_rev : list ascii -> list ascii :=
  trim_with space1 (fun a b => space2 b a) (fun a b c => space3 c b a).

Definition trim_back (l : list ascii) : list ascii :=
  rev (trim_front_rev (rev l)).

(** [strings.TrimSpace(s)]: [s] without its leading and trailing white
    space, as defined by Unicode. *)
Definition TrimSpace (s : string) : string :=
  string_of_list_ascii (trim_back (trim_front (list_ascii_of_string s))).

(** [strings.Split(s, sep)] for a one-byte separator (the package only
    splits at ["\n"]): the substrings between the separators, one more
    than there are separators. *)
Fixpoint Split (s : string) (sep : ascii) : list string :=
  match s with
  | EmptyString => [EmptyString]
  | String c r =>
      if Ascii.eqb c sep then EmptyString :: Split r sep
      else match Split r sep with
           | h :: t => String c h :: t
           | [] => [String c EmptyString]
           end
  end.

Definition newline : ascii := "010"%char.

Fixpoint contains_byte (c : ascii) (s : string) : bool :=
  match s with
  | EmptyString => false
  | String d r => Ascii.eqb d c || contains_byte c r
  end.

(** The white space code points of Unicode, as [unicode.White_Space]
    lists them. *)
Definition White_Space : list N :=
  [9; 10; 11; 12; 13; 32; 0x85; 0xA0; 0x1680; 0x2000; 0x2001; 0x2002;
   0x2003; 0x2004; 0x2005; 0x2006; 0x2007; 0x2008; 0x2009; 0x200A;
   0x2028; 0x2029; 0x202F; 0x205F; 0x3000]%N.

(** The [n] code points from [from] on. *)
Fixpoint code_points (n : nat) (from : N) : list N :=
  match n with
  | O => []
  | S n' => from :: code_points n' (N.succ from)
  end.

(** Whether a whole byte sequence is one of the white space encodings. *)
Definition space_bytes (l : list ascii) : bool :=
  match l with
  | [a] => space1 a
  | [a; b] => space2 a b
  | [a; b; c] => space3 a b c
  | _ => false
  end.

End GoStrings.

Import GoStrings.

(** ** The external process interface ([os/exec]) *)

(** [exec.Command(name, arg...)]. *)
Record Cmd : Type := Command { Path : string; Args : list string }.

(** What a finished process hands back: the bytes it wrote to standard
    output and the error of [Cmd.Run] / [Cmd.Output], [None] for Go's [nil]
    (the process ran and exited with status 0). *)
Record ProcResult (E : Type) : Type :=
  Exited { Stdout : string; Err : option E }.
Arguments Exited {E} _ _.
Arguments Stdout {E} _.
Arguments Err {E} _.

(** ** Package [gittag] *)

Section GitTag.

(** The non-nil error values of [os/exec] and their [Error()] text. *)
Variable ProcErr : Type.
Variable ProcErr_Error : ProcErr -> string.

(** The outside world (the repository, its remote, the network) and what
    spawning a command does to it. *)
Variable World : Type.
Variable spawn : Cmd -> World -> ProcResult ProcErr * World.

(** The errors the package builds, one constructor for each message
    format of its [fmt.Errorf] calls ([FindOne] and [FindMany] share
    theirs). *)
Inductive error : Type :=
| CreationError (cause : ProcErr)
| PushError (cause : ProcErr)
| DeletionError (cause : ProcErr)
| RemoteDeletionError (cause : ProcErr)
| ListingError (cause : ProcErr)
| NoMatchError
| BulkLocalError (tag : string) (cause : error)
| BulkRemoteError (tag : string) (cause : error).

(** The message of each error, as the format strings give it. *)
Fixpoint Error (e : error) : string :=
  match e with
  | CreationError c => "创建本地标签失败: " ++ ProcErr_Error c
  | PushError c => "推送标签到远程仓库失败: " ++ ProcErr_Error c
  | DeletionError c => "删除本地标签失败: " ++ ProcErr_Error c
  | RemoteDeletionError c => "删除远程标签失败: " ++ ProcErr_Error c
  | ListingError c => "查找标签失败: " ++ ProcErr_Error c
  | NoMatchError => "未找到匹配的标签"
  | BulkLocalError tag c => "删除标签 " ++ tag ++ " 失败: " ++ Error c
  | BulkRemoteError tag c => "删除远程标签 " ++ tag ++ " 失败: " ++ Error c
  end.

(** The error kinds of the specification, by cause. *)
Definition NotFoundError (e : error) : Prop :=
  e = NoMatchError \/ exists c, e = ListingError c.

Definition WrappedBulkError (tag : string) (e : error) : Prop :=
  exists c, e = BulkLocalError tag c \/ e = BulkRemoteError tag c.

(** *** State and sequencing *)

(** A program state is the world together with the commands spawned so
    far, oldest first.  The history is not in the Go code: it records
    which invocations a call made. *)
Record State : Type := MkState { world : World; history : list Cmd }.

Definition M (A : Type) : Type := State -> A * State.

Definition ret {A : Type} (a : A) : M A := fun s => (a, s).

Definition bind {A B : Type} (m : M A) (k : A -> M B) : M B :=
  fun s => let (a, s') := m s in k a s'.

Notation "x <- m ;; k" := (bind m (fun x => k))
  (at level 61, m at next level, right associativity).

Definition step (c : Cmd) : M (ProcResult ProcErr) :=
  fun s => let (r, w) := spawn c (world s) in
           (r, {| world := w; history := history s ++ [c] |}).

(** [cmd.Run()] *)
Definition Run (c : Cmd) : M (option ProcErr) :=
  r <- step c ;; ret (Err r).

(** [cmd.Output()] *)
Definition Output (c : Cmd) : M (string * option ProcErr) :=
  r <- step c ;; ret (Stdout r, Err r).

(** *** gittag.go *)

(** The annotation [CreateLocal] computes in its local [tagMessage];
    [message] is the variadic parameter, a slice. *)
Definition tagMessage (tagName : string) (message : list string) : string :=
  let tagMessage := "chore(release): " ++ tagName in
  if (0 <? length message)%nat && negb (nth 0 message "" =? "")%string
  then nth 0 message "" else tagMessage.

Definition CreateLocal (tagName : string) (message : list string)
  : M (option error) :=
  err <- Run (Command "git" ["tag"; "-a"; tagName; "-m";
                             tagMessage tagName message]) ;;
  match err with
  | Some e => ret (Some (CreationError e))
  | None => ret None
  end.

Definition CreateRemote (tagName : string) : M (option error) :=
  err <- Run (Command "git" ["push"; "origin"; tagName]) ;;
  match err with
  | Some e => ret (Some (PushError e))
  | None => ret None
  end.

Definition CreateTag (tagName : string) (message : list string)
  : M (option error) :=
  err <- CreateLocal tagName message ;;
  match err with
  | Some e => ret (Some e)
  | None =>
      err <- CreateRemote tagName ;;
      match err with
      | Some e => ret (Some e)
      | None => ret None
      end
  end.

(** *** find.go *)

Definition no_tags (tags : list string) : bool :=
  (length tags =? 0)%nat
  || (length tags =? 1)%nat && (nth 0 tags "" =? "")%string.

Definition FindOne (pattern : string) : M (string * option error) :=
  out <- Output (Command "git" ["tag"; "-l"; pattern]) ;;
  match snd out with
  | Some e => ret ("", Some (ListingError e))
  | None =>
      let tags := Split (TrimSpace (fst out)) newline in
      if no_tags tags then ret ("", Some NoMatchError)
      else ret (nth 0 tags "", None)
  end.

Definition FindMany (pattern : string) : M (list string * option error) :=
  out <- Output (Command "git" ["tag"; "-l"; pattern]) ;;
  match snd out with
  | Some e => ret ([], Some (ListingError e))
  | None =>
      let tags := Split (TrimSpace (fst out)) newline in
      if no_tags tags then ret ([], Some NoMatchError)
      else ret (tags, None)
  end.

(** *** delete.go

    [gittag.go] also holds an earlier revision of [DeleteLocalAll] and
    [DeleteRemoteAll] that lists the tags itself and reports a failed
    listing; the functions below are the ones of [delete.go], built on
    [FindMany]. *)

Definition DeleteLocal (tagName : string) : M (option error) :=
  err <- Run (Command "git" ["tag"; "-d"; tagName]) ;;
  match err with
  | Some e => ret (Some (DeletionError e))
  | None => ret None
  end.

Definition DeleteRemote (tagName : string) : M (option error) :=
  err <- Run (Command "git" ["push"; "origin"; "--delete"; tagName]) ;;
  match err with
  | Some e => ret (Some (RemoteDeletionError e))
  | None => ret None
  end.

Definition DeleteTag (tagName : string) : M (option error) :=
  err <- DeleteLocal tagName ;;
  match err with
  | Some e => ret (Some e)
  | None =>
      err <- DeleteRemote tagName ;;
      match err with
      | Some e => ret (Some e)
      | None => ret None
      end
  end.

(** The loop [for _, tag := range tags] of [DeleteLocalAll]. *)
Fixpoint DeleteLocal_range (tags : list string) : M (option error) :=
  match tags with
  | [] => ret None
  | tag :: rest =>
      err <- DeleteLocal tag ;;
      match err with
      | Some e => ret (Some (BulkLocalError tag e))
      | None => DeleteLocal_range rest
      end
  end.

Definition DeleteLocalAll (pattern : string) : M (option error) :=
  found <- FindMany pattern ;;
  match snd found with
  | Some _ => ret None
  | None => DeleteLocal_range (fst found)
  end.

(** The loop [for _, tag := range tags] of [DeleteRemoteAll]. *)
Fixpoint DeleteRemote_range (tags : list string) : M (option error) :=
  match tags with
  | [] => ret None
  | tag :: rest =>
      err <- DeleteRemote tag ;;
      match err with
      | Some e => ret (Some (BulkRemoteError tag e))
      | None => DeleteRemote_range rest
      end
  end.

Definition DeleteRemoteAll (pattern : string) : M (option error) :=
  found <- FindMany pattern ;;
  match snd found with
  | Some _ => ret None
  | None => DeleteRemote_range (fst found)
  end.

Definition DeleteAllTags : M (option error) :=
  err <- DeleteLocalAll "*" ;;
  match err with
  | Some e => ret (Some e)
  | None =>
      err <- DeleteRemoteAll "*" ;;
      match err with
      | Some e => ret (Some e)
      | None => ret None
      end
  end.

(** *** gittag.go, earlier revision

    The first part of [gittag.go] is an earlier revision of the file.  Its
    [CreateLocal], [CreateRemote], [DeleteLocal] and [DeleteRemote] read as
    the ones above.  Its two bulk functions run the listing themselves and
    have one more error message, for a listing that failed. *)

Inductive error_rev1 : Type :=
| ListFetchError (cause : ProcErr)
| PackageError (e : error).

Definition Error_rev1 (e : error_rev1) : string :=
  match e with
  | ListFetchError c => "获取标签列表失败: " ++ ProcErr_Error c
  | PackageError e' => Error e'
  end.

Fixpoint DeleteLocal_range_rev1 (tags : list string)
  : M (option error_rev1) :=
  match tags with
  | [] => ret None
  | tag :: rest =>
      err <- DeleteLocal tag ;;
      match err with
      | Some e => ret (Some (PackageError (BulkLocalError tag e)))
      | None => DeleteLocal_range_rev1 rest
      end
  end.

Definition DeleteLocalAll_rev1 (pattern : string) : M (option error_rev1) :=
  out <- Output (Command "git" ["tag"; "-l"; pattern]) ;;
  match snd out with
  | Some e => ret (Some (ListFetchError e))
  | None =>
      let tags := Split (TrimSpace (fst out)) newline in
      if no_tags tags then ret None
      else DeleteLocal_range_rev1 tags
  end.

Fixpoint DeleteRemote_range_rev1 (tags : list string)
  : M (option error_rev1) :=
  match tags with
  | [] => ret None
  | tag :: rest =>
      err <- DeleteRemote tag ;;
      match err with
      | Some e => ret (Some (PackageError (BulkRemoteError tag e)))
      | None => DeleteRemote_range_rev1 rest
      end
  end.

Definition DeleteRemoteAll_rev1 (pattern : string) : M (option error_rev1) :=
  out <- Output (Command "git" ["tag"; "-l"; pattern]) ;;
  match snd out with
  | Some e => ret (Some (ListFetchError e))
  | None =>
      let tags := Split (TrimSpace (fst out)) newline in
      if no_tags tags then ret None
      else DeleteRemote_range_rev1 tags
  end.

End GitTag.

Arguments CreationError {ProcErr} _.
Arguments PushError {ProcErr} _.
Arguments DeletionError {ProcErr} _.
Arguments RemoteDeletionError {ProcErr} _.
Arguments ListingError {ProcErr} _.
Arguments NoMatchError {ProcErr}.
Arguments BulkLocalError {ProcErr} _ _.
Arguments BulkRemoteError {ProcErr} _ _.
Arguments NotFoundError {ProcErr} _.
Arguments WrappedBulkError {ProcErr} _ _.
Arguments MkState {World} _ _.
Arguments world {World} _.
Arguments history {World} _.

Arguments ListFetchError {ProcErr} _.
Arguments PackageError {ProcErr} _.
Arguments Error_rev1 {ProcErr} ProcErr_Error e.
Arguments DeleteLocal_range_rev1 {ProcErr World} spawn tags _.
Arguments DeleteLocalAll_rev1 {ProcErr World} spawn pattern _.
Arguments DeleteRemote_range_rev1 {ProcErr World} spawn tags _.
Arguments DeleteRemoteAll_rev1 {ProcErr World} spawn pattern _.

(** The five invocation shapes of the package. *)
Definition git_tag_create (name msg : string) : Cmd :=
  Command "git" ["tag"; "-a"; name; "-m"; msg].
Definition git_push (name : string) : Cmd :=
  Command "git" ["push"; "origin"; name].
Definition git_tag_delete (name : string) : Cmd :=
  Command "git" ["tag"; "-d"; name].
Definition git_push_delete (name : string) : Cmd :=
  Command "git" ["push"; "origin"; "--delete"; name].
Definition git_tag_list (pattern : string) : Cmd :=
  Command "git" ["tag"; "-l"; pattern].

(** ** A model of git's tag commands *)

Module SimGit.

(** A repository keeps the names of its tags in the order [git tag -l]
    prints them (byte order of the names); [online] says whether the
    remote [origin] can be reached. *)
Record Repo : Type :=
  MkRepo { localTags : list string; remoteTags : list string;
           online : bool }.

(** [*exec.ExitError] *)
Inductive ExitError : Type := ExitStatus (code : N).

Definition ExitError_Error (e : ExitError) : string :=
  match e with
  | ExitStatus code =>
      "exit status " ++ NilZero.string_of_uint (N.to_uint code)
  end.

Fixpoint contains (sub s : string) : bool :=
  prefix sub s
  || match s with
     | EmptyString => false
     | String _ r => contains sub r
     end.

Definition ends_with (suf s : string) : bool :=
  (String.length suf <=? String.length s)%nat
  && (substring (String.length s - String.length suf)
                (String.length suf) s =? suf)%string.

Fixpoint all_bytes (p : ascii -> bool) (s : string) : bool :=
  match s with
  | EmptyString => true
  | String c r => p c && all_bytes p r
  end.

(** Bytes git refuses in a reference name: control characters, space,
    [~ ^ : ? * [ \] and DEL.  Bytes from 0x80 on are accepted. *)
Definition ref_byte_ok (c : ascii) : bool :=
  negb (byte_in 0 32 c || byte_is 127 c
        || byte_is 126 c || byte_is 94 c || byte_is 58 c
        || byte_is 63 c || byte_is 42 c || byte_is 91 c || byte_is 92 c).

Definition component_ok (s : string) : bool :=
  negb (s =? "")%string && negb (prefix "." s) && negb (ends_with ".lock" s).

(** [git check-ref-format] on [refs/tags/<name>], and the rule of
    [git tag] that a name does not start with a dash. *)
Definition valid_tag_name (name : string) : bool :=
  all_bytes ref_byte_ok name
  && forallb component_ok (Split name "/"%char)
  && negb (contains ".." name) && negb (contains "@{" name)
  && negb (ends_with "." name) && negb (prefix "-" name).

(** Glob matching of [git tag -l]: [*] matches any run of bytes, [?]
    one byte, a backslash quotes the next byte.  Bracket expressions are
    not modelled: a [[] only matches itself, and no tag name has one. *)
Fixpoint wildmatch (p : string) : string -> bool :=
  match p with
  | EmptyString => fun t => (t =? "")%string
  | String c p' =>
      if byte_is 42 c then
        fix star (t : string) : bool :=
          wildmatch p' t
          || match t with
             | EmptyString => false
             | String _ t' => star t'
             end
      else if byte_is 63 c then
        fun t => match t with
                 | EmptyString => false
                 | String _ t' => wildmatch p' t'
                 end
      else
        match p' with
        | String q p'' =>
            if byte_is 92 c then
              fun t => match t with
                       | EmptyString => false
                       | String d t' => Ascii.eqb q d && wildmatch p'' t'
                       end
            else
              fun t => match t with
                       | EmptyString => false
                       | String d t' => Ascii.eqb c d && wildmatch p' t'
                       end
        | EmptyString =>
            fun t => match t with
                     | EmptyString => false
                     | String d t' => Ascii.eqb c d && wildmatch p' t'
                     end
        end
  end.

Definition has_tag (name : string) (tags : list string) : bool :=
  existsb (String.eqb name) tags.

Fixpoint add_tag (name : string) (tags : list string) : list string :=
  match tags with
  | [] => [name]
  | t :: rest =>
      if (name =? t)%string then tags
      else if String.ltb name t then name :: tags
      else t :: add_tag name rest
  end.

Definition remove_tag (name : string) (tags : list string) : list string :=
  filter (fun t => negb (name =? t)%string) tags.

Definition listing (tags : list string) : string :=
  fold_right (fun t out => t ++ String newline out) "" tags.

Definition ok (out : string) : ProcResult ExitError := Exited out None.
Definition failed (code : N) : ProcResult ExitError :=
  Exited "" (Some (ExitStatus code)).

(** What each invocation shape does to a repository.  A name or
    pattern that starts with a dash would be read as an option and is
    answered with an error, without telling the options git knows from
    the others.  Conflicts between a tag name and a directory of tag
    names ([a] and [a/b]) are not modelled. *)
Definition git_tag (args : list string) (r : Repo)
  : ProcResult ExitError * Repo :=
  match args with
  | [a; name; m; _] =>
      if negb ((a =? "-a") && (m =? "-m"))%string then (failed 129, r)
      else if valid_tag_name name && negb (has_tag name (localTags r))
      then (ok "", MkRepo (add_tag name (localTags r)) (remoteTags r)
                          (online r))
      else (failed 128, r)
  | [flag; arg] =>
      if prefix "-" arg then (failed 129, r)
      else if (flag =? "-d")%string then
        if has_tag arg (localTags r)
        then (ok "", MkRepo (remove_tag arg (localTags r)) (remoteTags r)
                            (online r))
        else (failed 1, r)
      else if (flag =? "-l")%string then
        (ok (listing (filter (wildmatch arg) (localTags r))), r)
      else (failed 129, r)
  | _ => (failed 129, r)
  end.

Definition git_push_origin (args : list string) (r : Repo)
  : ProcResult ExitError * Repo :=
  match args with
  | [name] =>
      if prefix "-" name then (failed 129, r)
      else if negb (online r) then (failed 128, r)
      else if has_tag name (localTags r)
      then (ok "", MkRepo (localTags r) (add_tag name (remoteTags r))
                          (online r))
      else (failed 1, r)
  | [flag; name] =>
      if negb (flag =? "--delete")%string || prefix "-" name
      then (failed 129, r)
      else if negb (online r) then (failed 128, r)
      else if has_tag name (remoteTags r)
      then (ok "", MkRepo (localTags r) (remove_tag name (remoteTags r))
                          (online r))
      else (failed 1, r)
  | _ => (failed 129, r)
  end.

Definition spawn (c : Cmd) (r : Repo) : ProcResult ExitError * Repo :=
  if negb (Path c =? "git")%string then (failed 129, r)
  else match Args c with
       | sub :: args =>
           if (sub =? "tag")%string then git_tag args r
           else if (sub =? "push")%string then
             match args with
             | origin :: args' =>
                 if (origin =? "origin")%string
                 then git_push_origin args' r
                 else (failed 128, r)
             | [] => (failed 129, r)
             end
           else (failed 129, r)
       | [] => (failed 129, r)
       end.

Definition start (r : Repo) : State Repo := MkState r [].

End SimGit.


Arguments Error {ProcErr} ProcErr_Error e.
Arguments M World A : clear implicits.
Arguments step {ProcErr World} spawn c _.
Arguments Run {ProcErr World} spawn c _.
Arguments Output {ProcErr World} spawn c _.
Arguments CreateLocal {ProcErr World} spawn tagName message _.
Arguments CreateRemote {ProcErr World} spawn tagName _.
Arguments CreateTag {ProcErr World} spawn tagName message _.
Arguments FindOne {ProcErr World} spawn pattern _.
Arguments FindMany {ProcErr World} spawn pattern _.
Arguments DeleteLocal {ProcErr World} spawn tagName _.
Arguments DeleteRemote {ProcErr World} spawn tagName _.
Arguments DeleteTag {ProcErr World} spawn tagName _.
Arguments DeleteLocal_range {ProcErr World} spawn tags _.
Arguments DeleteLocalAll {ProcErr World} spawn pattern _.
Arguments DeleteRemote_range {ProcErr World} spawn tags _.
Arguments DeleteRemoteAll {ProcErr World} spawn pattern _.
Arguments DeleteAllTags {ProcErr World} spawn _.

(** ** Vocabulary of the statements *)

(** The state a single spawn of [c] leaves. *)
Definition spawned {ProcErr World : Type}
  (spawn : Cmd -> World -> ProcResult ProcErr * World)
  (c : Cmd) (s : State World) : State World :=
  MkState (snd (spawn c (world s))) (history s ++ [c]).

(** How [FindOne] and [FindMany] read the result of the listing. *)
Definition parse_listing {ProcErr : Type} (r : ProcResult ProcErr)
  : list string * option (error ProcErr) :=
  match Err r with
  | Some e => ([], Some (ListingError e))
  | None =>
      let tags := Split (TrimSpace (Stdout r)) newline in
      if no_tags tags then ([], Some NoMatchError) else (tags, None)
  end.

(** The state after [f] has been called on each of [tags] in turn. *)
Definition after_each {World E : Type}
  (f : string -> M World (option E)) (tags : list string) (s : State World)
  : State World :=
  fold_left (fun s' tag => snd (f tag s')) tags s.

(** Every command of [cmds], spawned in turn from the world [w], exits
    cleanly.  On the history of a call and the world the call started in,
    this says that every invocation the call made has succeeded. *)
Fixpoint all_succeed {ProcErr World : Type}
  (spawn : Cmd -> World -> ProcResult ProcErr * World)
  (cmds : list Cmd) (w : World) : Prop :=
  match cmds with
  | [] => True
  | c :: rest =>
      Err (fst (spawn c w)) = None /\ all_succeed spawn rest (snd (spawn c w))
  end.

(** The round trip of creation and lookup, for every tag name and every
    state: when the creation and the listing after it both succeed,
    [FindOne(t)] returns [t]. *)
Definition create_find_roundtrip {ProcErr World : Type}
  (spawn : Cmd -> World -> ProcResult ProcErr * World) : Prop :=
  forall (t : string) (message : list string) (s : State World),
    fst (CreateLocal spawn t message s) = None ->
    Err (fst (spawn (git_tag_list t)
                (world (snd (CreateLocal spawn t message s))))) = None ->
    fst (FindOne spawn t (snd (CreateLocal spawn t message s))) = (t, None).

(** U+00A0, the no-break space, in UTF-8. *)
Definition nbsp : string := string_of_list_ascii (EncodeRune 0xA0).

(** Repositories to run the functions on. *)
Definition repo_empty : SimGit.Repo := SimGit.MkRepo [] [] true.

Definition repo_releases : SimGit.Repo :=
  SimGit.MkRepo ["v1.0.0"; "v1.1.0"; "v2.0.0"] ["v1.0.0"] true.

Definition repo_offline : SimGit.Repo :=
  SimGit.MkRepo ["v1.0.0"] ["v1.0.0"] false.

Definition repo_nbsp : SimGit.Repo :=
  SimGit.MkRepo ["v1"; "v1" ++ nbsp] [] true.

(** The two halves of [TrimSpace]:
    [strings.TrimLeftFunc(s, unicode.IsSpace)] removes the white space in
    front, [strings.TrimRightFunc(s, unicode.IsSpace)] the white space
    behind. *)
Definition TrimLeftSpace (s : string) : string :=
  string_of_list_ascii (trim_front (list_ascii_of_string s)).

Definition TrimRightSpace (s : string) : string :=
  string_of_list_ascii (trim_back (list_ascii_of_string s)).

(** The shape of the four [range] loops: [f] is called on the names in
    turn until a call returns an error, which is wrapped with the name. *)
Fixpoint until_error {World E R : Type}
  (f : string -> M World (option E)) (wrap : string -> E -> R)
  (tags : list string) (s : State World) : option R * State World :=
  match tags with
  | [] => (None, s)
  | tag :: rest =>
      match f tag s with
      | (Some e, s1) => (Some (wrap tag e), s1)
      | (None, s1) => until_error f wrap rest s1
      end
  end.

(** A machine on which [git] is not installed: no command starts, and
    [os/exec] reports that the executable was not found (the text here
    leaves out the quotation marks Go prints around the program name). *)
Definition missing_git (c : Cmd) (w : unit) : ProcResult string * unit :=
  (Exited "" (Some ("exec: " ++ Path c
                    ++ ": executable file not found in $PATH")), w).

(** A tool that answers every command with a clean exit and the output
    [out]. *)
Definition prints (out : string) (c : Cmd) (w : unit)
  : ProcResult string * unit :=
  (Exited out None, w).

(** A repository without network access to its remote. *)
Definition repo_cut_off : SimGit.Repo :=
  SimGit.MkRepo ["v1.0.0"; "v1.1.0"] ["v1.0.0"; "v1.1.0"] false.

(** * Properties *)

(** ** Splitting *)

Lemma Split_not_nil (s : string) (sep : ascii) : Split s sep <> [].
Proof.
  destruct s as [|c r]; simpl; [discriminate|].
  destruct (Ascii.eqb c sep); [discriminate|].
  destruct (Split r sep); discriminate.
Qed.

Lemma no_tags_Split (s : string) :
  no_tags (Split s newline) = true <-> s = "".
Proof.
  split.
  - intros H. destruct s as [|c r]; [reflexivity|]. exfalso.
    unfold no_tags in H. simpl in H.
    destruct (Ascii.eqb c newline).
    + pose proof (Split_not_nil r newline) as Hn.
      destruct (Split r newline); [contradiction | discriminate].
    + destruct (Split r newline) as [|h [|h' t]]; discriminate.
  - intros ->. reflexivity.
Qed.

Lemma no_tags_false (s : string) :
  s <> "" -> no_tags (Split s newline) = false.
Proof.
  intros Hs. destruct (no_tags (Split s newline)) eqn:E; [|reflexivity].
  apply no_tags_Split in E. contradiction.
Qed.

Lemma nth_hd_error (l : list string) :
  l <> [] -> hd_error l = Some (nth 0 l "").
Proof. destruct l; [contradiction | reflexivity]. Qed.

(** ** One invocation *)

Section Invocations.

Context {ProcErr World : Type}.
Variable spawn : Cmd -> World -> ProcResult ProcErr * World.

Lemma step_eq (c : Cmd) (s : State World) :
  step spawn c s = (fst (spawn c (world s)), spawned spawn c s).
Proof. unfold step, spawned. destruct (spawn c (world s)); reflexivity. Qed.

Lemma Run_eq (c : Cmd) (s : State World) :
  Run spawn c s = (Err (fst (spawn c (world s))), spawned spawn c s).
Proof. unfold Run, bind, ret. rewrite step_eq. reflexivity. Qed.

Lemma Output_eq (c : Cmd) (s : State World) :
  Output spawn c s
  = ((Stdout (fst (spawn c (world s))), Err (fst (spawn c (world s)))),
     spawned spawn c s).
Proof. unfold Output, bind, ret. rewrite step_eq. reflexivity. Qed.

Lemma CreateLocal_eq (t : string) (message : list string) (s : State World) :
  CreateLocal spawn t message s
  = (option_map CreationError
       (Err (fst (spawn (git_tag_create t (tagMessage t message)) (world s)))),
     spawned spawn (git_tag_create t (tagMessage t message)) s).
Proof.
  unfold CreateLocal, bind, ret. fold (git_tag_create t (tagMessage t message)).
  rewrite Run_eq. destruct (Err _); reflexivity.
Qed.

Lemma CreateRemote_eq (t : string) (s : State World) :
  CreateRemote spawn t s
  = (option_map PushError (Err (fst (spawn (git_push t) (world s)))),
     spawned spawn (git_push t) s).
Proof.
  unfold CreateRemote, bind, ret. fold (git_push t).
  rewrite Run_eq. destruct (Err _); reflexivity.
Qed.

Lemma DeleteLocal_eq (t : string) (s : State World) :
  DeleteLocal spawn t s
  = (option_map DeletionError (Err (fst (spawn (git_tag_delete t) (world s)))),
     spawned spawn (git_tag_delete t) s).
Proof.
  unfold DeleteLocal, bind, ret. fold (git_tag_delete t).
  rewrite Run_eq. destruct (Err _); reflexivity.
Qed.

Lemma DeleteRemote_eq (t : string) (s : State World) :
  DeleteRemote spawn t s
  = (option_map RemoteDeletionError
       (Err (fst (spawn (git_push_delete t) (world s)))),
     spawned spawn (git_push_delete t) s).
Proof.
  unfold DeleteRemote, bind, ret. fold (git_push_delete t).
  rewrite Run_eq. destruct (Err _); reflexivity.
Qed.

Lemma FindMany_eq (p : string) (s : State World) :
  FindMany spawn p s
  = (parse_listing (fst (spawn (git_tag_list p) (world s))),
     spawned spawn (git_tag_list p) s).
Proof.
  unfold FindMany, bind, ret, parse_listing. fold (git_tag_list p).
  rewrite Output_eq. simpl. destruct (Err _); [reflexivity|].
  destruct (no_tags _); reflexivity.
Qed.

Lemma FindOne_eq (p : string) (s : State World) :
  FindOne spawn p s
  = ((nth 0 (fst (parse_listing (fst (spawn (git_tag_list p) (world s))))) "",
      snd (parse_listing (fst (spawn (git_tag_list p) (world s))))),
     spawned spawn (git_tag_list p) s).
Proof.
  unfold FindOne, bind, ret, parse_listing. fold (git_tag_list p).
  rewrite Output_eq. simpl. destruct (Err _); [reflexivity|].
  destruct (no_tags _); reflexivity.
Qed.

(** ** Creating tags (gittag.go) *)

Lemma tagMessage_default (t : string) :
  tagMessage t [] = "chore(release): " ++ t.
Proof. reflexivity. Qed.

Lemma tagMessage_empty (t : string) (rest : list string) :
  tagMessage t ("" :: rest) = "chore(release): " ++ t.
Proof. reflexivity. Qed.

Lemma tagMessage_given (t m : string) (rest : list string) :
  m <> "" -> tagMessage t (m :: rest) = m.
Proof.
  intros Hm. unfold tagMessage. simpl.
  destruct (String.eqb_spec m ""); [contradiction | reflexivity].
Qed.

(** C4: [CreateLocal(t)] called with no message, or with an empty first
    message, hands the annotation ["chore(release): " + t] to the external
    tool: its result is the outcome of spawning [git tag -a t -m a] with
    that annotation [a] in the world of the call, and the state it leaves
    is the one that spawn leaves, with this one command added to the
    history.  Called with a non-empty first message [m], the same holds
    with [m] itself as the annotation. *)
Theorem CreateLocal_annotation (t : string) (s : State World) :
  let default := git_tag_create t ("chore(release): " ++ t) in
  CreateLocal spawn t [] s
  = (option_map CreationError (Err (fst (spawn default (world s)))),
     MkState (snd (spawn default (world s))) (history s ++ [default]))
  /\ (forall rest,
        CreateLocal spawn t ("" :: rest) s
        = (option_map CreationError (Err (fst (spawn default (world s)))),
           MkState (snd (spawn default (world s))) (history s ++ [default])))
  /\ (forall m rest,
        m <> "" ->
        CreateLocal spawn t (m :: rest) s
        = (option_map CreationError
             (Err (fst (spawn (git_tag_create t m) (world s)))),
           MkState (snd (spawn (git_tag_create t m) (world s)))
                   (history s ++ [git_tag_create t m]))).
Proof.
  intros default. repeat split; intros; rewrite CreateLocal_eq.
  - reflexivity.
  - reflexivity.
  - rewrite tagMessage_given by assumption. reflexivity.
Qed.

(** C8: [CreateLocal] returns [nil] exactly when the process it spawned
    exited cleanly; when the process failed with [e] it returns the
    creation error built from [e], whose message is the fixed prefix
    followed by the text of [e]. *)
Theorem CreateLocal_succeeds_iff_clean_exit
  (t : string) (message : list string) (s : State World) :
  let r := fst (spawn (git_tag_create t (tagMessage t message)) (world s)) in
  (fst (CreateLocal spawn t message s) = None <-> Err r = None)
  /\ (forall e,
        Err r = Some e ->
        fst (CreateLocal spawn t message s) = Some (CreationError e)
        /\ forall describe,
             Error describe (CreationError e)
             = "创建本地标签失败: " ++ describe e).
Proof.
  intros r. rewrite CreateLocal_eq. fold r. simpl. split.
  - destruct (Err r); simpl; split; intros H; congruence.
  - intros e He. rewrite He. simpl. split; [reflexivity|]. reflexivity.
Qed.

(** C5: [CreateTag] runs [CreateLocal] first.  If that fails, its error
    is the result and nothing else is spawned.  If it succeeds, the result
    and final state are those of [CreateRemote]: only the creation and the
    push have been spawned, so when the push fails nothing undoes the
    creation, and a tag that the tool created and that a failing push
    leaves alone is still there. *)
Theorem CreateTag_no_rollback
  (t : string) (message : list string) (s : State World)
  (present : World -> string -> Prop)
  (Hcreate : forall m w,
      Err (fst (spawn (git_tag_create t m) w)) = None ->
      present (snd (spawn (git_tag_create t m) w)) t)
  (Hpush : forall w,
      Err (fst (spawn (git_push t) w)) <> None ->
      present w t -> present (snd (spawn (git_push t) w)) t) :
  let create := git_tag_create t (tagMessage t message) in
  let s1 := snd (CreateLocal spawn t message s) in
  (forall e,
     fst (CreateLocal spawn t message s) = Some e ->
     CreateTag spawn t message s = (Some e, s1)
     /\ history s1 = (history s ++ [create])%list)
  /\ (fst (CreateLocal spawn t message s) = None ->
      CreateTag spawn t message s = CreateRemote spawn t s1
      /\ history (snd (CreateTag spawn t message s))
         = (history s ++ [create; git_push t])%list
      /\ forall e,
           fst (CreateRemote spawn t s1) = Some e ->
           fst (CreateTag spawn t message s) = Some e
           /\ world (snd (CreateTag spawn t message s))
              = snd (spawn (git_push t) (world s1))
           /\ present (world (snd (CreateTag spawn t message s))) t).
Proof.
  intros create s1.
  assert (Hs1 : s1 = spawned spawn create s)
    by (unfold s1; rewrite CreateLocal_eq; reflexivity).
  split.
  - intros e He. unfold CreateTag, bind, ret.
    destruct (CreateLocal spawn t message s) as [r s'] eqn:E.
    simpl in He. subst r. unfold s1. simpl. split; [reflexivity|].
    rewrite CreateLocal_eq in E. inversion E. reflexivity.
  - intros Hok.
    assert (Heq : CreateTag spawn t message s = CreateRemote spawn t s1).
    { unfold CreateTag, bind, ret.
      destruct (CreateLocal spawn t message s) as [r s'] eqn:E.
      simpl in Hok. subst r. unfold s1. simpl.
      destruct (CreateRemote spawn t s') as [[e|] s2]; reflexivity. }
    rewrite Heq. split; [reflexivity|]. split.
    + rewrite CreateRemote_eq, Hs1. simpl. rewrite <- app_assoc. reflexivity.
    + intros e He. split; [assumption|].
      rewrite CreateRemote_eq in *. simpl in *. split; [reflexivity|].
      apply Hpush.
      * destruct (Err (fst (spawn (git_push t) (world s1)))); discriminate.
      * rewrite Hs1. simpl. apply Hcreate.
        rewrite CreateLocal_eq in Hok. simpl in Hok.
        destruct (Err (fst (spawn (git_tag_create t (tagMessage t message))
                              (world s)))); [discriminate | reflexivity].
Qed.

(** ** Deleting one tag (delete.go) *)

(** C9: [DeleteTag] runs [DeleteLocal] first.  If that fails, the very
    error it returned is the result and the remote deletion is not
    spawned.  If it succeeds, the result of [DeleteTag] is whatever
    [DeleteRemote] returns, error or [nil]. *)
Theorem DeleteTag_short_circuit (t : string) (s : State World) :
  let s1 := snd (DeleteLocal spawn t s) in
  (forall e,
     fst (DeleteLocal spawn t s) = Some e ->
     DeleteTag spawn t s = (Some e, s1)
     /\ history (snd (DeleteTag spawn t s))
        = (history s ++ [git_tag_delete t])%list)
  /\ (fst (DeleteLocal spawn t s) = None ->
      DeleteTag spawn t s = DeleteRemote spawn t s1
      /\ history (snd (DeleteTag spawn t s))
         = (history s ++ [git_tag_delete t; git_push_delete t])%list).
Proof.
  intros s1.
  assert (Hs1 : s1 = spawned spawn (git_tag_delete t) s)
    by (unfold s1; rewrite DeleteLocal_eq; reflexivity).
  split.
  - intros e He. unfold DeleteTag, bind, ret.
    destruct (DeleteLocal spawn t s) as [r s'] eqn:E.
    simpl in He. subst r. unfold s1. simpl. split; [reflexivity|].
    rewrite DeleteLocal_eq in E. inversion E. reflexivity.
  - intros Hok.
    assert (Heq : DeleteTag spawn t s = DeleteRemote spawn t s1).
    { unfold DeleteTag, bind, ret.
      destruct (DeleteLocal spawn t s) as [r s'] eqn:E.
      simpl in Hok. subst r. unfold s1. simpl.
      destruct (DeleteRemote spawn t s') as [[e|] s2]; reflexivity. }
    rewrite Heq. split; [reflexivity|].
    rewrite DeleteRemote_eq, Hs1. simpl. rewrite <- app_assoc. reflexivity.
Qed.

End Invocations.

(** ** Finding tags (find.go) *)

Section Finding.

Context {ProcErr World : Type}.
Variable spawn : Cmd -> World -> ProcResult ProcErr * World.

Lemma parse_listing_cases (r : ProcResult ProcErr) :
  (exists e, Err r = Some e /\ parse_listing r = ([], Some (ListingError e)))
  \/ (Err r = None /\ TrimSpace (Stdout r) = ""
      /\ parse_listing r = ([], Some NoMatchError))
  \/ (Err r = None /\ TrimSpace (Stdout r) <> ""
      /\ parse_listing r = (Split (TrimSpace (Stdout r)) newline, None)).
Proof.
  unfold parse_listing. destruct (Err r) as [e|].
  - left. exists e. split; reflexivity.
  - right. destruct (no_tags (Split (TrimSpace (Stdout r)) newline)) eqn:E.
    + left. apply no_tags_Split in E. repeat split; assumption.
    + right. repeat split. intros H. rewrite H in E. discriminate.
Qed.

(** C6: [FindOne(p)] reads the output of the listing process, trims it
    and splits it at newlines.  It fails, with a not-found error, exactly
    when the trimmed output is empty or the process failed; otherwise it
    returns the first entry of the split. *)
Theorem FindOne_first_entry (p : string) (s : State World) :
  let r := fst (spawn (git_tag_list p) (world s)) in
  let entries := Split (TrimSpace (Stdout r)) newline in
  let tag := fst (fst (FindOne spawn p s)) in
  let err := snd (fst (FindOne spawn p s)) in
  ((exists e, err = Some e /\ NotFoundError e)
   <-> (TrimSpace (Stdout r) = "" \/ Err r <> None))
  /\ (err = None <-> ~ (TrimSpace (Stdout r) = "" \/ Err r <> None))
  /\ (err = None -> hd_error entries = Some tag).
Proof.
  intros r entries tag err. unfold tag, err. rewrite FindOne_eq. fold r.
  simpl.
  destruct (parse_listing_cases r)
    as [(e & He & Hp) | [(He & Ht & Hp) | (He & Ht & Hp)]];
    rewrite Hp; simpl.
  - repeat split.
    + intros _. right. congruence.
    + intros _. exists (ListingError e). split; [reflexivity|].
      right. exists e. reflexivity.
    + discriminate.
    + intros H. exfalso. apply H. right. congruence.
    + discriminate.
  - repeat split.
    + intros _. left. assumption.
    + intros _. exists NoMatchError. split; [reflexivity|]. left. reflexivity.
    + discriminate.
    + intros H. exfalso. apply H. left. assumption.
    + discriminate.
  - repeat split.
    + intros (e & H & _). discriminate.
    + intros [H | H]; contradiction.
    + intros _ [H | H]; contradiction.
    + intros _. apply nth_hd_error. apply Split_not_nil.
Qed.

(** C10: on states in which the listing process gives the same result,
    [FindOne(p)] and [FindMany(p)] fail together, with the same error, and
    when they succeed the tag of [FindOne] is the first element of the list
    of [FindMany]. *)
Theorem FindOne_agrees_with_FindMany (p : string) (s s' : State World) :
  fst (spawn (git_tag_list p) (world s))
  = fst (spawn (git_tag_list p) (world s')) ->
  let one := fst (FindOne spawn p s) in
  let many := fst (FindMany spawn p s') in
  (snd one = None <-> snd many = None)
  /\ snd one = snd many
  /\ (snd one = None -> hd_error (fst many) = Some (fst one)).
Proof.
  intros Hsame one many. unfold one, many.
  rewrite FindOne_eq, FindMany_eq, Hsame. simpl.
  split; [reflexivity|]. split; [reflexivity|].
  intros Hok. apply nth_hd_error.
  destruct (parse_listing_cases (fst (spawn (git_tag_list p) (world s'))))
    as [(e & He & Hp) | [(He & Ht & Hp) | (He & Ht & Hp)]];
    rewrite Hp in *; simpl in *; try discriminate.
  apply Split_not_nil.
Qed.

End Finding.

(** ** Deleting by pattern (delete.go) *)

Section Bulk.

Context {ProcErr World : Type}.
Variable spawn : Cmd -> World -> ProcResult ProcErr * World.

Lemma history_after_DeleteLocal (tags : list string) (s : State World) :
  history (after_each (DeleteLocal spawn) tags s)
  = (history s ++ map git_tag_delete tags)%list.
Proof.
  revert s. induction tags as [|t tags IH]; intros s.
  - simpl. rewrite app_nil_r. reflexivity.
  - change (after_each (DeleteLocal spawn) (t :: tags) s)
      with (after_each (DeleteLocal spawn) tags (snd (DeleteLocal spawn t s))).
    rewrite IH, DeleteLocal_eq. simpl. rewrite <- app_assoc. reflexivity.
Qed.

Lemma DeleteLocal_range_cons (t : string) (tags : list string)
  (s : State World) :
  DeleteLocal_range spawn (t :: tags) s
  = match DeleteLocal spawn t s with
    | (Some e, s1) => (Some (BulkLocalError t e), s1)
    | (None, s1) => DeleteLocal_range spawn tags s1
    end.
Proof.
  cbn [DeleteLocal_range]. unfold bind, ret.
  destruct (DeleteLocal spawn t s) as [[e|] s1]; reflexivity.
Qed.

Lemma after_each_cons {E : Type} (f : string -> M World (option E))
  (t : string) (tags : list string) (s : State World) :
  after_each f (t :: tags) s = after_each f tags (snd (f t s)).
Proof. reflexivity. Qed.

(** The loop when no deletion fails. *)
Lemma DeleteLocal_range_all (tags : list string) (s : State World) :
  (forall k t,
     nth_error tags k = Some t ->
     fst (DeleteLocal spawn t
            (after_each (DeleteLocal spawn) (firstn k tags) s))
     = None) ->
  DeleteLocal_range spawn tags s
  = (None, after_each (DeleteLocal spawn) tags s).
Proof.
  revert s. induction tags as [|t tags IH]; intros s Hall; [reflexivity|].
  rewrite DeleteLocal_range_cons, after_each_cons.
  pose proof (Hall 0 t eq_refl) as H0. cbn [firstn after_each fold_left] in H0.
  destruct (DeleteLocal spawn t s) as [r s1] eqn:E. cbn [fst snd] in *.
  subst r. apply IH.
  intros k u Hk. specialize (Hall (S k) u Hk).
  cbn [firstn] in Hall. rewrite after_each_cons, E in Hall. exact Hall.
Qed.

(** The loop when the deletion at index [k] is the first to fail. *)
Lemma DeleteLocal_range_first_failure
  (tags : list string) (s : State World) (k : nat) (t : string)
  (e : error ProcErr) :
  nth_error tags k = Some t ->
  (forall j u,
     j < k -> nth_error tags j = Some u ->
     fst (DeleteLocal spawn u
            (after_each (DeleteLocal spawn) (firstn j tags) s))
     = None) ->
  fst (DeleteLocal spawn t (after_each (DeleteLocal spawn) (firstn k tags) s))
  = Some e ->
  DeleteLocal_range spawn tags s
  = (Some (BulkLocalError t e),
     after_each (DeleteLocal spawn) (firstn (S k) tags) s).
Proof.
  revert s k. induction tags as [|t0 tags IH]; intros s k Hk Hbefore Hfail.
  - destruct k; discriminate.
  - rewrite DeleteLocal_range_cons. cbn [firstn]. rewrite after_each_cons.
    destruct k as [|k].
    + cbn [nth_error] in Hk. inversion Hk; subst t0.
      cbn [firstn after_each fold_left] in Hfail.
      destruct (DeleteLocal spawn t s) as [r s1] eqn:E. cbn [fst snd] in *.
      subst r. reflexivity.
    + cbn [nth_error] in Hk.
      pose proof (Hbefore 0 t0 (Nat.lt_0_succ k) eq_refl) as H0.
      cbn [firstn after_each fold_left] in H0.
      destruct (DeleteLocal spawn t0 s) as [r s1] eqn:E. cbn [fst snd] in *.
      subst r. apply (IH s1 k Hk).
      * intros j u Hj Hu.
        specialize (Hbefore (S j) u (proj1 (Nat.succ_lt_mono j k) Hj) Hu).
        cbn [firstn] in Hbefore. rewrite after_each_cons, E in Hbefore.
        exact Hbefore.
      * cbn [firstn] in Hfail. rewrite after_each_cons, E in Hfail.
        exact Hfail.
Qed.

Lemma DeleteLocalAll_eq (p : string) (s : State World) :
  DeleteLocalAll spawn p s
  = DeleteLocal_range spawn (fst (fst (FindMany spawn p s)))
      (snd (FindMany spawn p s)).
Proof.
  unfold DeleteLocalAll, bind, ret. rewrite FindMany_eq. simpl.
  destruct (parse_listing_cases (fst (spawn (git_tag_list p) (world s))))
    as [(e & He & Hp) | [(He & Ht & Hp) | (He & Ht & Hp)]];
    rewrite Hp; reflexivity.
Qed.

Lemma DeleteRemoteAll_eq (p : string) (s : State World) :
  DeleteRemoteAll spawn p s
  = DeleteRemote_range spawn (fst (fst (FindMany spawn p s)))
      (snd (FindMany spawn p s)).
Proof.
  unfold DeleteRemoteAll, bind, ret. rewrite FindMany_eq. simpl.
  destruct (parse_listing_cases (fst (spawn (git_tag_list p) (world s))))
    as [(e & He & Hp) | [(He & Ht & Hp) | (He & Ht & Hp)]];
    rewrite Hp; reflexivity.
Qed.

(** C2: [DeleteLocalAll(p)] calls [DeleteLocal] on the names [FindMany(p)]
    returns in the state of the call, in their order.  When every deletion
    succeeds it has called it on all of them and returns [nil].  When the
    deletion at index [k] is the first to fail, with [e], it returns the
    bulk error that names that tag and wraps [e], and it has called
    [DeleteLocal] on the first [k+1] names only. *)
Theorem DeleteLocalAll_follows_FindMany (p : string) (s : State World) :
  let tags := fst (fst (FindMany spawn p s)) in
  let s1 := snd (FindMany spawn p s) in
  let del := DeleteLocal spawn in
  ((forall k t,
      nth_error tags k = Some t ->
      fst (del t (after_each del (firstn k tags) s1)) = None) ->
   DeleteLocalAll spawn p s = (None, after_each del tags s1)
   /\ history (snd (DeleteLocalAll spawn p s))
      = (history s ++ git_tag_list p :: map git_tag_delete tags)%list)
  /\ (forall k t e,
        nth_error tags k = Some t ->
        (forall j u,
           j < k -> nth_error tags j = Some u ->
           fst (del u (after_each del (firstn j tags) s1)) = None) ->
        fst (del t (after_each del (firstn k tags) s1)) = Some e ->
        DeleteLocalAll spawn p s
        = (Some (BulkLocalError t e), after_each del (firstn (S k) tags) s1)
        /\ WrappedBulkError t (BulkLocalError t e)
        /\ history (snd (DeleteLocalAll spawn p s))
           = (history s
              ++ git_tag_list p
                 :: map git_tag_delete (firstn (S k) tags))%list).
Proof.
  intros tags s1 del.
  assert (Hh : history s1 = (history s ++ [git_tag_list p])%list)
    by (unfold s1; rewrite FindMany_eq; reflexivity).
  split.
  - intros Hall. rewrite DeleteLocalAll_eq. fold tags s1.
    rewrite (DeleteLocal_range_all tags s1 Hall). split; [reflexivity|].
    simpl. rewrite history_after_DeleteLocal, Hh, <- app_assoc. reflexivity.
  - intros k t e Hk Hbefore Hfail. rewrite DeleteLocalAll_eq. fold tags s1.
    rewrite (DeleteLocal_range_first_failure tags s1 k t e Hk Hbefore Hfail).
    split; [reflexivity|]. split.
    + exists e. left. reflexivity.
    + cbv [snd]. rewrite history_after_DeleteLocal, Hh, <- app_assoc.
      reflexivity.
Qed.

Lemma parse_listing_no_match (r : ProcResult ProcErr) :
  Err r = None -> TrimSpace (Stdout r) = "" ->
  parse_listing r = ([], Some NoMatchError).
Proof.
  intros Hok Hempty. unfold parse_listing. rewrite Hok, Hempty. reflexivity.
Qed.

Lemma DeleteLocalAll_no_match (p : string) (s : State World) :
  Err (fst (spawn (git_tag_list p) (world s))) = None ->
  TrimSpace (Stdout (fst (spawn (git_tag_list p) (world s)))) = "" ->
  DeleteLocalAll spawn p s = (None, spawned spawn (git_tag_list p) s).
Proof.
  intros Hok Hempty.
  rewrite DeleteLocalAll_eq, FindMany_eq.
  rewrite (parse_listing_no_match _ Hok Hempty).
  reflexivity.
Qed.

Lemma DeleteRemoteAll_no_match (p : string) (s : State World) :
  Err (fst (spawn (git_tag_list p) (world s))) = None ->
  TrimSpace (Stdout (fst (spawn (git_tag_list p) (world s)))) = "" ->
  DeleteRemoteAll spawn p s = (None, spawned spawn (git_tag_list p) s).
Proof.
  intros Hok Hempty.
  rewrite DeleteRemoteAll_eq, FindMany_eq.
  rewrite (parse_listing_no_match _ Hok Hempty).
  reflexivity.
Qed.

(** C3: when the listing for [p] succeeds and is empty once trimmed (as
    it is when no tag matches), [FindMany(p)] fails with a not-found error
    while [DeleteLocalAll(p)] and [DeleteRemoteAll(p)] return [nil], having
    spawned nothing but the listing. *)
Theorem no_match_asymmetry (p : string) (s : State World) :
  let r := fst (spawn (git_tag_list p) (world s)) in
  Err r = None ->
  TrimSpace (Stdout r) = "" ->
  (exists e, fst (FindMany spawn p s) = ([], Some e) /\ NotFoundError e)
  /\ DeleteLocalAll spawn p s = (None, spawned spawn (git_tag_list p) s)
  /\ DeleteRemoteAll spawn p s = (None, spawned spawn (git_tag_list p) s).
Proof.
  intros r Hok Hempty. split; [|split].
  - exists NoMatchError. rewrite FindMany_eq. fold r.
    rewrite (parse_listing_no_match r Hok Hempty).
    split; [reflexivity | left; reflexivity].
  - apply DeleteLocalAll_no_match; assumption.
  - apply DeleteRemoteAll_no_match; assumption.
Qed.

(** What [DeleteAllTags] does once the local tags are gone: when its
    [DeleteLocalAll] has succeeded and the listing that follows is empty,
    it spawns that listing and nothing more, whatever the remote holds. *)
Lemma DeleteAllTags_after_local_purge (s : State World) :
  let s1 := snd (DeleteLocalAll spawn "*" s) in
  fst (DeleteLocalAll spawn "*" s) = None ->
  Err (fst (spawn (git_tag_list "*") (world s1))) = None ->
  TrimSpace (Stdout (fst (spawn (git_tag_list "*") (world s1)))) = "" ->
  DeleteAllTags spawn s = (None, spawned spawn (git_tag_list "*") s1).
Proof.
  intros s1 Hlocal Hok Hempty. unfold DeleteAllTags, bind, ret.
  destruct (DeleteLocalAll spawn "*" s) as [r s'] eqn:E.
  cbn [fst snd] in *. subst r s1.
  rewrite (DeleteRemoteAll_no_match "*" s' Hok Hempty). reflexivity.
Qed.

End Bulk.

(** ** Trimming *)

(** The byte table of the white space encodings agrees with
    [unicode.IsSpace] on every code point below U+10000. *)
Lemma in_code_points (n : nat) :
  forall from r,
    (from <= r < from + N.of_nat n)%N -> In r (code_points n from).
Proof.
  induction n as [|n IH]; intros from r Hr; [lia|].
  cbn [code_points]. destruct (N.eq_dec from r) as [E | E].
  - left. exact E.
  - right. apply IH. lia.
Qed.

Lemma space_bytes_table :
  forallb (fun r => Bool.eqb (space_bytes (EncodeRune r)) (IsSpace r))
          (code_points (N.to_nat 0x10000) 0) = true.
Proof. vm_compute. reflexivity. Qed.

Lemma space_bytes_EncodeRune (r : N) :
  (r < 0x10000)%N -> space_bytes (EncodeRune r) = IsSpace r.
Proof.
  intros Hr. pose proof space_bytes_table as Hall.
  rewrite forallb_forall in Hall. apply eqb_prop. apply Hall.
  apply in_code_points. lia.
Qed.

Lemma White_Space_IsSpace : forallb IsSpace White_Space = true.
Proof. reflexivity. Qed.

Section TrimWith.

Variable p1 : ascii -> bool.
Variable p2 : ascii -> ascii -> bool.
Variable p3 : ascii -> ascii -> ascii -> bool.

Lemma trim_with_cons (a : ascii) (l1 : list ascii) :
  trim_with p1 p2 p3 (a :: l1)
  = if p1 a then trim_with p1 p2 p3 l1
    else match l1 with
         | [] => a :: l1
         | b :: l2 =>
             if p2 a b then trim_with p1 p2 p3 l2
             else match l2 with
                  | [] => a :: l1
                  | c :: l3 =>
                      if p3 a b c then trim_with p1 p2 p3 l3 else a :: l1
                  end
         end.
Proof. reflexivity. Qed.

Lemma trim_with_length_bounded (n : nat) :
  forall l, length l <= n -> length (trim_with p1 p2 p3 l) <= length l.
Proof.
  induction n as [|n IH]; intros l Hl.
  - destruct l; [apply Nat.le_refl | simpl in Hl; lia].
  - destruct l as [|a l1]; [apply Nat.le_refl|].
    rewrite trim_with_cons. simpl in Hl.
    destruct (p1 a).
    { specialize (IH l1). simpl. lia. }
    destruct l1 as [|b l2]; [apply Nat.le_refl|].
    destruct (p2 a b).
    { specialize (IH l2). simpl in *. lia. }
    destruct l2 as [|c l3]; [apply Nat.le_refl|].
    destruct (p3 a b c); [|apply Nat.le_refl].
    specialize (IH l3). simpl in *. lia.
Qed.

Lemma trim_with_length (l : list ascii) :
  length (trim_with p1 p2 p3 l) <= length l.
Proof. apply (trim_with_length_bounded (length l)). apply Nat.le_refl. Qed.

(** Trimming either changes nothing or shortens. *)
Lemma trim_with_fixed_or_shorter (l : list ascii) :
  trim_with p1 p2 p3 l = l \/ length (trim_with p1 p2 p3 l) < length l.
Proof.
  destruct l as [|a l1]; [left; reflexivity|].
  rewrite trim_with_cons.
  destruct (p1 a).
  { right. pose proof (trim_with_length l1). simpl. lia. }
  destruct l1 as [|b l2]; [left; reflexivity|].
  destruct (p2 a b).
  { right. pose proof (trim_with_length l2). simpl. lia. }
  destruct l2 as [|c l3]; [left; reflexivity|].
  destruct (p3 a b c); [|left; reflexivity].
  right. pose proof (trim_with_length l3). simpl. lia.
Qed.

(** A byte [x] that ends no group of two or three does not disturb an
    untrimmable front when it is appended. *)
Lemma trim_with_snoc (x : ascii) (l : list ascii) :
  (forall a, p2 a x = false) ->
  (forall a b, p3 a b x = false) ->
  l <> [] ->
  trim_with p1 p2 p3 l = l ->
  trim_with p1 p2 p3 (l ++ [x]) = (l ++ [x])%list.
Proof.
  intros H2 H3 Hne Hfix.
  destruct l as [|a l1]; [contradiction|].
  rewrite trim_with_cons in Hfix. cbn [app]. rewrite trim_with_cons.
  destruct (p1 a).
  { pose proof (trim_with_length l1) as Hl. rewrite Hfix in Hl.
    simpl in Hl. lia. }
  destruct l1 as [|b l2]; cbn [app].
  { rewrite H2. reflexivity. }
  destruct (p2 a b).
  { pose proof (trim_with_length l2) as Hl. rewrite Hfix in Hl.
    simpl in Hl. lia. }
  destruct l2 as [|c l3]; cbn [app].
  { rewrite H3. reflexivity. }
  destruct (p3 a b c); [|reflexivity].
  pose proof (trim_with_length l3) as Hl. rewrite Hfix in Hl.
  simpl in Hl. lia.
Qed.

End TrimWith.

Lemma space2_newline (a : ascii) : space2 a newline = false.
Proof. unfold space2. destruct (byte_is 0xC2 a); reflexivity. Qed.

Lemma space3_newline (a b : ascii) : space3 a b newline = false.
Proof.
  unfold space3.
  repeat match goal with
         | |- context [byte_is ?n a] => destruct (byte_is n a)
         | |- context [byte_is ?n b] => destruct (byte_is n b)
         end; reflexivity.
Qed.

Lemma trim_back_length (l : list ascii) : length (trim_back l) <= length l.
Proof.
  unfold trim_back, trim_front_rev. rewrite length_rev.
  etransitivity; [apply trim_with_length|]. rewrite length_rev.
  apply Nat.le_refl.
Qed.

Lemma trim_back_snoc_newline (l : list ascii) :
  trim_back (l ++ [newline]) = trim_back l.
Proof.
  unfold trim_back, trim_front_rev. rewrite rev_app_distr. cbn [rev app].
  rewrite trim_with_cons. reflexivity.
Qed.

Lemma list_ascii_of_string_app (s1 s2 : string) :
  list_ascii_of_string (s1 ++ s2)
  = (list_ascii_of_string s1 ++ list_ascii_of_string s2)%list.
Proof. induction s1 as [|c s1 IH]; simpl; [|rewrite IH]; reflexivity. Qed.

(** A string that trimming leaves alone is what remains of that string
    followed by a newline. *)
Lemma TrimSpace_line (t : string) :
  t <> "" -> TrimSpace t = t -> TrimSpace (t ++ String newline "") = t.
Proof.
  intros Hne Hfix. unfold TrimSpace in *.
  rewrite list_ascii_of_string_app. cbn [list_ascii_of_string].
  set (l := list_ascii_of_string t) in *.
  assert (Hl : trim_back (trim_front l) = l).
  { rewrite <- (list_ascii_of_string_of_list_ascii (trim_back (trim_front l))).
    rewrite Hfix. reflexivity. }
  assert (Hlne : l <> []).
  { intros E. apply Hne. rewrite <- (string_of_list_ascii_of_string t).
    fold l. rewrite E. reflexivity. }
  assert (Hfront : trim_front l = l).
  { destruct (trim_with_fixed_or_shorter space1 space2 space3 l) as [H | H];
      [exact H|].
    pose proof (trim_back_length (trim_front l)) as Hb. rewrite Hl in Hb.
    unfold trim_front in Hb. lia. }
  rewrite Hfront in Hl.
  unfold trim_front.
  rewrite (trim_with_snoc space1 space2 space3 newline l
             space2_newline space3_newline Hlne Hfront).
  rewrite trim_back_snoc_newline, Hl. unfold l.
  apply string_of_list_ascii_of_string.
Qed.

Lemma Split_single (s : string) (sep : ascii) :
  contains_byte sep s = false -> Split s sep = [s].
Proof.
  induction s as [|c r IH]; intros H; [reflexivity|].
  simpl in *. apply orb_false_iff in H. destruct H as [Hc Hr].
  rewrite Hc, (IH Hr). reflexivity.
Qed.

(** ** Creation followed by lookup *)

Section RoundTrip.

Context {ProcErr World : Type}.
Variable spawn : Cmd -> World -> ProcResult ProcErr * World.

(** A listing that consists of the one line [t] is read back as [t]
    when trimming leaves [t] alone. *)
Lemma FindOne_single_line (t : string) (s : State World) :
  t <> "" ->
  contains_byte newline t = false ->
  TrimSpace t = t ->
  Err (fst (spawn (git_tag_list t) (world s))) = None ->
  Stdout (fst (spawn (git_tag_list t) (world s))) = t ++ String newline "" ->
  fst (FindOne spawn t s) = (t, None).
Proof.
  intros Hne Hline Hfix Hok Hout.
  rewrite FindOne_eq. cbn [fst].
  assert (Hp : parse_listing (fst (spawn (git_tag_list t) (world s)))
               = ([t], None)).
  { unfold parse_listing. rewrite Hok, Hout, (TrimSpace_line t Hne Hfix).
    rewrite (no_tags_false t Hne), (Split_single t newline Hline).
    reflexivity. }
  rewrite Hp. reflexivity.
Qed.

(** X17: for a tool that, whenever it has created the tag [t], lists
    the one line [t] for the pattern [t] in the world the creation left:
    if [t] is not empty, has no newline in it and is left alone by
    [TrimSpace], and [CreateLocal(t)] succeeds, then [FindOne(t)] called
    next returns exactly [t]. *)
Theorem CreateLocal_FindOne_roundtrip
  (t : string) (message : list string) (s : State World)
  (Hlists : forall m w,
      Err (fst (spawn (git_tag_create t m) w)) = None ->
      fst (spawn (git_tag_list t) (snd (spawn (git_tag_create t m) w)))
      = Exited (t ++ String newline "") None) :
  t <> "" ->
  contains_byte newline t = false ->
  TrimSpace t = t ->
  fst (CreateLocal spawn t message s) = None ->
  fst (FindOne spawn t (snd (CreateLocal spawn t message s))) = (t, None).
Proof.
  intros Hne Hline Hfix Hcreated.
  rewrite CreateLocal_eq in *. cbn [fst snd] in *.
  set (create := git_tag_create t (tagMessage t message)) in *.
  assert (Hok : Err (fst (spawn create (world s))) = None)
    by (destruct (Err (fst (spawn create (world s))));
        [discriminate | reflexivity]).
  pose proof (Hlists _ (world s) Hok) as Hlist. fold create in Hlist.
  apply FindOne_single_line; try assumption.
  - unfold spawned. cbn [world]. rewrite Hlist. reflexivity.
  - unfold spawned. cbn [world]. rewrite Hlist. reflexivity.
Qed.

End RoundTrip.

(** ** The model of git *)

Lemma sim_spawn_create (t m : string) (r : SimGit.Repo) :
  SimGit.spawn (git_tag_create t m) r
  = if SimGit.valid_tag_name t
       && negb (SimGit.has_tag t (SimGit.localTags r))
    then (SimGit.ok "",
          SimGit.MkRepo (SimGit.add_tag t (SimGit.localTags r))
                        (SimGit.remoteTags r) (SimGit.online r))
    else (SimGit.failed 128, r).
Proof. reflexivity. Qed.

Lemma sim_spawn_list (p : string) (r : SimGit.Repo) :
  SimGit.spawn (git_tag_list p) r
  = if prefix "-" p then (SimGit.failed 129, r)
    else (SimGit.ok (SimGit.listing
                       (filter (SimGit.wildmatch p) (SimGit.localTags r))),
          r).
Proof. reflexivity. Qed.

Lemma sim_spawn_push (t : string) (r : SimGit.Repo) :
  SimGit.spawn (git_push t) r
  = if prefix "-" t then (SimGit.failed 129, r)
    else if negb (SimGit.online r) then (SimGit.failed 128, r)
    else if SimGit.has_tag t (SimGit.localTags r)
    then (SimGit.ok "",
          SimGit.MkRepo (SimGit.localTags r)
                        (SimGit.add_tag t (SimGit.remoteTags r))
                        (SimGit.online r))
    else (SimGit.failed 1, r).
Proof. reflexivity. Qed.

Lemma sim_has_tag_add_tag (t : string) (tags : list string) :
  SimGit.has_tag t (SimGit.add_tag t tags) = true.
Proof.
  unfold SimGit.has_tag. induction tags as [|u tags IH]; simpl.
  - rewrite String.eqb_refl. reflexivity.
  - destruct (t =? u)%string eqn:E.
    + simpl. rewrite E. reflexivity.
    + destruct (String.ltb t u); simpl.
      * rewrite String.eqb_refl. reflexivity.
      * rewrite E, IH. reflexivity.
Qed.

(** A creation that succeeds puts the tag among the local tags. *)
Lemma sim_create_present (t m : string) (r : SimGit.Repo) :
  Err (fst (SimGit.spawn (git_tag_create t m) r)) = None ->
  SimGit.has_tag t
    (SimGit.localTags (snd (SimGit.spawn (git_tag_create t m) r))) = true.
Proof.
  rewrite sim_spawn_create.
  destruct (SimGit.valid_tag_name t
            && negb (SimGit.has_tag t (SimGit.localTags r))); simpl.
  - intros _. apply sim_has_tag_add_tag.
  - discriminate.
Qed.

(** A push never touches the local tags. *)
Lemma sim_push_keeps_local (t : string) (r : SimGit.Repo) :
  SimGit.localTags (snd (SimGit.spawn (git_push t) r)) = SimGit.localTags r.
Proof.
  rewrite sim_spawn_push.
  destruct (prefix "-" t); [reflexivity|].
  destruct (negb (SimGit.online r)); [reflexivity|].
  destruct (SimGit.has_tag t (SimGit.localTags r)); reflexivity.
Qed.

Lemma all_bytes_contains (p : ascii -> bool) (c : ascii) (s : string) :
  SimGit.all_bytes p s = true -> p c = false -> contains_byte c s = false.
Proof.
  intros Hall Hc. induction s as [|d r IH]; [reflexivity|].
  simpl in *. apply andb_true_iff in Hall. destruct Hall as [Hd Hr].
  rewrite (IH Hr), orb_false_r.
  destruct (Ascii.eqb_spec d c) as [E | E]; [|reflexivity].
  subst d. congruence.
Qed.

(** The bytes of a reference name are none of the glob operators. *)
Lemma ref_byte_ok_plain (c : ascii) :
  SimGit.ref_byte_ok c = true ->
  byte_is 42 c = false /\ byte_is 63 c = false /\ byte_is 92 c = false.
Proof.
  unfold SimGit.ref_byte_ok. intros H. apply negb_true_iff in H.
  repeat match type of H with
         | (_ || _) = false => apply orb_false_iff in H; destruct H as [H ?]
         end.
  repeat split; assumption.
Qed.

(** A pattern without glob operators matches itself only. *)
Lemma wildmatch_literal (t : string) :
  SimGit.all_bytes SimGit.ref_byte_ok t = true ->
  forall u, SimGit.wildmatch t u = (t =? u)%string.
Proof.
  induction t as [|c t IH]; intros Hall u.
  - destruct u; reflexivity.
  - cbn [SimGit.all_bytes] in Hall. apply andb_true_iff in Hall.
    destruct Hall as [Hc Ht].
    destruct (ref_byte_ok_plain c Hc) as (Hstar & Hany & Hquote).
    cbn [SimGit.wildmatch]. rewrite Hstar, Hany, Hquote.
    assert (Hstep : forall v,
               match v with
               | EmptyString => false
               | String d v' => Ascii.eqb c d && SimGit.wildmatch t v'
               end = (String c t =? v)%string).
    { intros [|d v']; [reflexivity|]. cbn [String.eqb]. rewrite (IH Ht).
      destruct (Ascii.eqb c d); reflexivity. }
    destruct t; apply Hstep.
Qed.

Lemma valid_tag_name_bytes (t : string) :
  SimGit.valid_tag_name t = true ->
  SimGit.all_bytes SimGit.ref_byte_ok t = true /\ prefix "-" t = false.
Proof.
  unfold SimGit.valid_tag_name. intros H.
  repeat match type of H with
         | (_ && _) = true => apply andb_true_iff in H; destruct H as [H ?]
         end.
  split; [assumption | apply negb_true_iff; assumption].
Qed.

Lemma valid_tag_name_nonempty (t : string) :
  SimGit.valid_tag_name t = true -> t <> "".
Proof. intros H E. subst t. discriminate H. Qed.

Lemma sim_filter_absent (t : string) (tags : list string) :
  SimGit.has_tag t tags = false -> filter (String.eqb t) tags = [].
Proof.
  unfold SimGit.has_tag. induction tags as [|u tags IH]; [reflexivity|].
  simpl. intros H. apply orb_false_iff in H. destruct H as [Hu Ht].
  rewrite Hu. apply IH. exact Ht.
Qed.

Lemma sim_filter_added (t : string) (tags : list string) :
  SimGit.has_tag t tags = false ->
  filter (String.eqb t) (SimGit.add_tag t tags) = [t].
Proof.
  induction tags as [|u tags IH]; intros H.
  - simpl. rewrite String.eqb_refl. reflexivity.
  - pose proof H as H'. unfold SimGit.has_tag in H'. simpl in H'.
    apply orb_false_iff in H'. destruct H' as [Hu Ht].
    cbn [SimGit.add_tag]. rewrite Hu. destruct (String.ltb t u).
    + cbn [filter]. rewrite String.eqb_refl.
      change (t :: filter (String.eqb t) (u :: tags) = [t]).
      rewrite (sim_filter_absent t (u :: tags) H). reflexivity.
    + cbn [filter]. rewrite Hu. apply IH. exact Ht.
Qed.

(** In the model, after a successful [git tag -a t], the listing for the
    pattern [t] is the one line [t]. *)
Lemma sim_listing_after_create (t m : string) (r : SimGit.Repo) :
  Err (fst (SimGit.spawn (git_tag_create t m) r)) = None ->
  fst (SimGit.spawn (git_tag_list t)
         (snd (SimGit.spawn (git_tag_create t m) r)))
  = SimGit.ok (t ++ String newline "").
Proof.
  rewrite sim_spawn_create.
  destruct (SimGit.valid_tag_name t
            && negb (SimGit.has_tag t (SimGit.localTags r))) eqn:E;
    [|discriminate].
  intros _. apply andb_true_iff in E. destruct E as [Hvalid Hnew].
  apply negb_true_iff in Hnew.
  destruct (valid_tag_name_bytes t Hvalid) as [Hbytes Hdash].
  cbn [snd]. rewrite sim_spawn_list, Hdash. cbn [fst SimGit.localTags].
  rewrite (filter_ext _ _ (wildmatch_literal t Hbytes)).
  rewrite (sim_filter_added t _ Hnew). reflexivity.
Qed.

(** In the model the round trip holds for every tag name that trimming
    leaves alone: git refuses the empty name and names with a newline, and
    the name it created is the only one the pattern matches. *)
Lemma sim_create_then_find
  (t : string) (message : list string) (s : State SimGit.Repo) :
  fst (CreateLocal SimGit.spawn t message s) = None ->
  TrimSpace t = t ->
  fst (FindOne SimGit.spawn t (snd (CreateLocal SimGit.spawn t message s)))
  = (t, None).
Proof.
  intros Hcreated Hfix. rewrite CreateLocal_eq in *. cbn [fst snd] in *.
  set (create := git_tag_create t (tagMessage t message)) in *.
  assert (Hok : Err (fst (SimGit.spawn create (world s))) = None)
    by (destruct (Err (fst (SimGit.spawn create (world s))));
        [discriminate | reflexivity]).
  pose proof (sim_listing_after_create t _ (world s) Hok) as Hlist.
  fold create in Hlist.
  assert (Hvalid : SimGit.valid_tag_name t = true).
  { unfold create in Hok. rewrite sim_spawn_create in Hok.
    destruct (SimGit.valid_tag_name t); [reflexivity | discriminate]. }
  apply FindOne_single_line.
  - apply valid_tag_name_nonempty. exact Hvalid.
  - apply (all_bytes_contains SimGit.ref_byte_ok).
    + apply valid_tag_name_bytes. exact Hvalid.
    + reflexivity.
  - exact Hfix.
  - unfold spawned. cbn [world]. rewrite Hlist. reflexivity.
  - unfold spawned. cbn [world]. rewrite Hlist. reflexivity.
Qed.

(** ** The scenarios of the specification on the model *)

(** Three tags are created; [DeleteLocalAll("v1.*")] removes the two it
    matches and leaves the third; then [FindMany("v1.*")] finds nothing and
    [FindOne("v2.*")] returns [v2.0.0]. *)
Example scenario_releases :
  let run {A : Type} (m : M SimGit.Repo A) (s : State SimGit.Repo) :=
    snd (m s) in
  let s1 := run (CreateLocal SimGit.spawn "v1.0.0" [])
              (SimGit.start repo_empty) in
  let s2 := run (CreateLocal SimGit.spawn "v1.1.0" []) s1 in
  let s3 := run (CreateLocal SimGit.spawn "v2.0.0" []) s2 in
  let s4 := run (DeleteLocalAll SimGit.spawn "v1.*") s3 in
  fst (DeleteLocalAll SimGit.spawn "v1.*" s3) = None
  /\ SimGit.localTags (world s4) = ["v2.0.0"]
  /\ fst (FindMany SimGit.spawn "v1.*" s4) = ([], Some NoMatchError)
  /\ fst (FindOne SimGit.spawn "v2.*" s4) = ("v2.0.0", None).
Proof. vm_compute. repeat split. Qed.

(** A tag is created and deleted again; [FindMany] no longer finds it. *)
Example scenario_create_delete :
  let s1 := snd (CreateLocal SimGit.spawn "v1.0.0" []
                   (SimGit.start repo_empty)) in
  let s2 := snd (DeleteLocal SimGit.spawn "v1.0.0" s1) in
  fst (DeleteLocal SimGit.spawn "v1.0.0" s1) = None
  /\ fst (FindMany SimGit.spawn "v1.0.0" s2) = ([], Some NoMatchError).
Proof. vm_compute. split; reflexivity. Qed.

(** The message of a bulk error names the tag and carries the messages of
    the errors below it. *)
Example scenario_bulk_error_message :
  option_map (Error SimGit.ExitError_Error)
    (fst (DeleteLocalAll SimGit.spawn "*" (SimGit.start repo_nbsp)))
  = Some "删除标签 v1 失败: 删除本地标签失败: exit status 1".
Proof. vm_compute. reflexivity. Qed.

(** ** Purging all tags *)

(** C1: on a repository whose local tags and remote tags are both
    [v1.0.0] and [v1.1.0], [DeleteAllTags] returns [nil] and every
    command it spawned has succeeded, but the remote still has both tags:
    the names to delete on the remote are looked up among the local tags
    after these have been deleted, so no remote deletion is spawned. *)
Theorem DeleteAllTags_keeps_remote_tags :
  let r0 := SimGit.MkRepo ["v1.0.0"; "v1.1.0"] ["v1.0.0"; "v1.1.0"] true in
  let final := snd (DeleteAllTags SimGit.spawn (SimGit.start r0)) in
  fst (DeleteAllTags SimGit.spawn (SimGit.start r0)) = None
  /\ history final
     = [git_tag_list "*"; git_tag_delete "v1.0.0"; git_tag_delete "v1.1.0";
        git_tag_list "*"]
  /\ all_succeed SimGit.spawn (history final) r0
  /\ SimGit.localTags (world final) = []
  /\ SimGit.remoteTags (world final) = ["v1.0.0"; "v1.1.0"].
Proof. vm_compute. repeat split. Qed.

(** ** A tag name that ends with a no-break space *)

(** C7: in an empty repository [CreateLocal] creates the tag whose name
    is [v1] followed by U+00A0, a name git accepts; the creation and the
    listing that [FindOne] spawns for that name both succeed and the tag is
    the only local tag, yet [FindOne] returns [v1], which is not the name
    asked for and is no tag of the repository: trimming the listing has
    removed the last rune of the name. *)
Theorem FindOne_drops_trailing_nbsp :
  let t := "v1" ++ nbsp in
  let created := CreateLocal SimGit.spawn t [] (SimGit.start repo_empty) in
  let found := FindOne SimGit.spawn t (snd created) in
  fst created = None
  /\ SimGit.localTags (world (snd created)) = [t]
  /\ history (snd found)
     = [git_tag_create t ("chore(release): " ++ t); git_tag_list t]
  /\ all_succeed SimGit.spawn (history (snd found)) repo_empty
  /\ Stdout (fst (SimGit.spawn (git_tag_list t) (world (snd created))))
     = t ++ String newline ""
  /\ fst found = ("v1", None)
  /\ "v1" <> t
  /\ SimGit.has_tag "v1" (SimGit.localTags (world (snd found))) = false.
Proof. vm_compute. repeat split. discriminate. Qed.

(** The round trip of creation and lookup does not hold for every tag
    name: the name above is one for which it fails. *)
Lemma create_find_roundtrip_fails : ~ create_find_roundtrip SimGit.spawn.
Proof.
  intros H.
  specialize (H ("v1" ++ nbsp) [] (SimGit.start repo_empty)
                eq_refl eq_refl).
  vm_compute in H. discriminate H.
Qed.

(** ** The theorems at work on concrete repositories *)

Lemma CreateLocal_annotation_witness :
  "Major release with new features" <> ""
  /\ CreateLocal SimGit.spawn "v2.0.0" ["Major release with new features"]
       (SimGit.start repo_empty)
     = (None,
        MkState (SimGit.MkRepo ["v2.0.0"] [] true)
          [git_tag_create "v2.0.0" "Major release with new features"]).
Proof.
  split; [discriminate|].
  apply (proj2 (proj2 (CreateLocal_annotation SimGit.spawn "v2.0.0"
                         (SimGit.start repo_empty)))
           "Major release with new features" []).
  discriminate.
Defined.

Lemma CreateLocal_succeeds_iff_clean_exit_witness :
  Err (fst (SimGit.spawn (git_tag_create "bad name" "chore(release): bad name")
              repo_empty))
  = Some (SimGit.ExitStatus 128)
  /\ fst (CreateLocal SimGit.spawn "bad name" [] (SimGit.start repo_empty))
     = Some (CreationError (SimGit.ExitStatus 128)).
Proof.
  split; [reflexivity|].
  apply (proj2 (CreateLocal_succeeds_iff_clean_exit SimGit.spawn "bad name" []
                  (SimGit.start repo_empty))
           (SimGit.ExitStatus 128)).
  reflexivity.
Defined.

Lemma sim_failed_push_present (t : string) (r : SimGit.Repo) :
  Err (fst (SimGit.spawn (git_push t) r)) <> None ->
  SimGit.has_tag t (SimGit.localTags r) = true ->
  SimGit.has_tag t (SimGit.localTags (snd (SimGit.spawn (git_push t) r)))
  = true.
Proof. intros _ H. rewrite sim_push_keeps_local. exact H. Qed.

Lemma CreateTag_no_rollback_witness :
  fst (CreateLocal SimGit.spawn "v2.0.0" [] (SimGit.start repo_offline)) = None
  /\ fst (CreateTag SimGit.spawn "v2.0.0" [] (SimGit.start repo_offline))
     = Some (PushError (SimGit.ExitStatus 128))
  /\ SimGit.has_tag "v2.0.0"
       (SimGit.localTags
          (world (snd (CreateTag SimGit.spawn "v2.0.0" []
                         (SimGit.start repo_offline))))) = true.
Proof.
  split; [reflexivity|].
  pose proof (CreateTag_no_rollback SimGit.spawn "v2.0.0" []
                (SimGit.start repo_offline)
                (fun w t => SimGit.has_tag t (SimGit.localTags w) = true)
                (sim_create_present "v2.0.0")
                (sim_failed_push_present "v2.0.0")) as H.
  destruct H as [_ H]. destruct (H eq_refl) as (_ & _ & Hfail).
  destruct (Hfail (PushError (SimGit.ExitStatus 128)) eq_refl)
    as (Herr & _ & Hkept).
  split; [exact Herr | exact Hkept].
Defined.

Lemma DeleteTag_short_circuit_witness :
  fst (DeleteLocal SimGit.spawn "v9.9.9" (SimGit.start repo_releases))
  = Some (DeletionError (SimGit.ExitStatus 1))
  /\ DeleteTag SimGit.spawn "v9.9.9" (SimGit.start repo_releases)
     = (Some (DeletionError (SimGit.ExitStatus 1)),
        MkState repo_releases [git_tag_delete "v9.9.9"]).
Proof.
  split; [reflexivity|].
  apply (proj1 (DeleteTag_short_circuit SimGit.spawn "v9.9.9"
                  (SimGit.start repo_releases))
           (DeletionError (SimGit.ExitStatus 1))).
  reflexivity.
Defined.

Lemma FindOne_first_entry_witness :
  snd (fst (FindOne SimGit.spawn "v1.*" (SimGit.start repo_releases))) = None
  /\ hd_error
       (Split (TrimSpace
                 (Stdout (fst (SimGit.spawn (git_tag_list "v1.*")
                                 repo_releases))))
              newline)
     = Some "v1.0.0".
Proof.
  split; [reflexivity|].
  apply (proj2 (proj2 (FindOne_first_entry SimGit.spawn "v1.*"
                         (SimGit.start repo_releases)))).
  reflexivity.
Defined.

Lemma FindOne_agrees_with_FindMany_witness :
  fst (FindOne SimGit.spawn "v1.*" (SimGit.start repo_releases))
  = ("v1.0.0", None)
  /\ hd_error (fst (fst (FindMany SimGit.spawn "v1.*"
                           (SimGit.start repo_releases))))
     = Some "v1.0.0".
Proof.
  split; [reflexivity|].
  apply (proj2 (proj2 (FindOne_agrees_with_FindMany SimGit.spawn "v1.*"
                         (SimGit.start repo_releases)
                         (SimGit.start repo_releases) eq_refl))).
  reflexivity.
Defined.

Lemma no_match_asymmetry_witness :
  TrimSpace (Stdout (fst (SimGit.spawn (git_tag_list "v9.*") repo_releases)))
  = ""
  /\ (exists e,
        fst (FindMany SimGit.spawn "v9.*" (SimGit.start repo_releases))
        = ([], Some e) /\ NotFoundError e)
  /\ DeleteLocalAll SimGit.spawn "v9.*" (SimGit.start repo_releases)
     = (None, MkState repo_releases [git_tag_list "v9.*"])
  /\ DeleteRemoteAll SimGit.spawn "v9.*" (SimGit.start repo_releases)
     = (None, MkState repo_releases [git_tag_list "v9.*"]).
Proof.
  split; [reflexivity|].
  apply (no_match_asymmetry SimGit.spawn "v9.*" (SimGit.start repo_releases));
    reflexivity.
Defined.

Lemma CreateLocal_FindOne_roundtrip_witness :
  fst (CreateLocal SimGit.spawn "v1.0.0" [] (SimGit.start repo_empty)) = None
  /\ fst (FindOne SimGit.spawn "v1.0.0"
            (snd (CreateLocal SimGit.spawn "v1.0.0" []
                    (SimGit.start repo_empty))))
     = ("v1.0.0", None).
Proof.
  split; [reflexivity|].
  apply (CreateLocal_FindOne_roundtrip SimGit.spawn "v1.0.0" []
           (SimGit.start repo_empty)
           (fun m w => sim_listing_after_create "v1.0.0" m w));
    solve [discriminate | reflexivity].
Defined.

Lemma DeleteLocalAll_follows_FindMany_witness :
  (DeleteLocalAll SimGit.spawn "v1.*" (SimGit.start repo_releases)
   = (None,
      MkState (SimGit.MkRepo ["v2.0.0"] ["v1.0.0"] true)
        [git_tag_list "v1.*"; git_tag_delete "v1.0.0";
         git_tag_delete "v1.1.0"]))
  /\ (DeleteLocalAll SimGit.spawn "*" (SimGit.start repo_nbsp)
      = (Some (BulkLocalError "v1" (DeletionError (SimGit.ExitStatus 1))),
         MkState (SimGit.MkRepo ["v1" ++ nbsp] [] true)
           [git_tag_list "*"; git_tag_delete "v1"; git_tag_delete "v1"])).
Proof.
  split.
  - apply (proj1 (DeleteLocalAll_follows_FindMany SimGit.spawn "v1.*"
                    (SimGit.start repo_releases))).
    intros k t Hk. destruct k as [|[|k]].
    + vm_compute in Hk. inversion Hk. reflexivity.
    + vm_compute in Hk. inversion Hk. reflexivity.
    + vm_compute in Hk. destruct k; discriminate Hk.
  - apply (proj2 (DeleteLocalAll_follows_FindMany SimGit.spawn "*"
                    (SimGit.start repo_nbsp))
             1 "v1" (DeletionError (SimGit.ExitStatus 1))).
    + reflexivity.
    + intros j u Hj Hu. destruct j as [|j]; [|lia].
      vm_compute in Hu. inversion Hu. reflexivity.
    + reflexivity.
Defined.

(** * Further properties of the package *)

(** ** The range loops *)

Section Loops.

Context {World E R : Type}.
Variable f : string -> M World (option E).
Variable wrap : string -> E -> R.

Lemma until_error_cons (tag : string) (rest : list string) (s : State World) :
  until_error f wrap (tag :: rest) s
  = match f tag s with
    | (Some e, s1) => (Some (wrap tag e), s1)
    | (None, s1) => until_error f wrap rest s1
    end.
Proof. reflexivity. Qed.

(** What a loop has done when it returns: with [nil], every call has
    succeeded; with an error, the call at some index [k] is the first that
    failed, the error is its error wrapped with its name, and no name after
    it has been tried. *)
Lemma until_error_outcome (tags : list string) (s : State World) :
  match fst (until_error f wrap tags s) with
  | None =>
      (forall j u, nth_error tags j = Some u ->
                   fst (f u (after_each f (firstn j tags) s)) = None)
      /\ snd (until_error f wrap tags s) = after_each f tags s
  | Some err =>
      exists k tag e,
        nth_error tags k = Some tag
        /\ (forall j u, j < k -> nth_error tags j = Some u ->
                        fst (f u (after_each f (firstn j tags) s)) = None)
        /\ fst (f tag (after_each f (firstn k tags) s)) = Some e
        /\ err = wrap tag e
        /\ snd (until_error f wrap tags s)
           = after_each f (firstn (S k) tags) s
  end.
Proof.
  revert s. induction tags as [|t tags IH]; intros s.
  - simpl. split; [|reflexivity]. intros [|j] u Hu; discriminate.
  - rewrite until_error_cons.
    destruct (f t s) as [[e|] s1] eqn:Ef.
    + cbn [fst snd]. exists 0, t, e. cbn [nth_error firstn].
      repeat split.
      * intros j u Hj. lia.
      * unfold after_each. simpl. rewrite Ef. reflexivity.
      * unfold after_each. simpl. rewrite Ef. reflexivity.
    + specialize (IH s1).
      assert (Hshift : forall l, after_each f l s1 = after_each f (t :: l) s).
      { intros l. unfold after_each. simpl. rewrite Ef. reflexivity. }
      destruct (fst (until_error f wrap tags s1)) as [err|].
      * destruct IH as (k & tag & e & Hk & Hbefore & Hfail & Herr & Hend).
        exists (S k), tag, e. cbn [nth_error]. repeat split; try assumption.
        -- intros [|j] u Hj Hu.
           ++ cbn [nth_error] in Hu. inversion Hu; subst u.
              cbn [firstn]. unfold after_each. simpl. rewrite Ef. reflexivity.
           ++ cbn [nth_error] in Hu. cbn [firstn]. rewrite <- Hshift.
              apply Hbefore; [lia | assumption].
        -- cbn [firstn]. rewrite <- Hshift. exact Hfail.
        -- rewrite Hend. apply Hshift.
      * destruct IH as [Hall Hend]. split.
        -- intros [|j] u Hu.
           ++ cbn [nth_error] in Hu. inversion Hu; subst u.
              cbn [firstn]. unfold after_each. simpl. rewrite Ef. reflexivity.
           ++ cbn [nth_error] in Hu. cbn [firstn]. rewrite <- Hshift.
              apply Hall. assumption.
        -- rewrite Hend. apply Hshift.
Qed.

End Loops.

Section LoopInstances.

Context {ProcErr World : Type}.
Variable spawn : Cmd -> World -> ProcResult ProcErr * World.

Lemma DeleteLocal_range_until_error (tags : list string) (s : State World) :
  DeleteLocal_range spawn tags s
  = until_error (DeleteLocal spawn) BulkLocalError tags s.
Proof.
  revert s. induction tags as [|t tags IH]; intros s; [reflexivity|].
  rewrite DeleteLocal_range_cons, until_error_cons.
  destruct (DeleteLocal spawn t s) as [[e|] s1]; [reflexivity | apply IH].
Qed.

Lemma DeleteRemote_range_cons (t : string) (tags : list string)
  (s : State World) :
  DeleteRemote_range spawn (t :: tags) s
  = match DeleteRemote spawn t s with
    | (Some e, s1) => (Some (BulkRemoteError t e), s1)
    | (None, s1) => DeleteRemote_range spawn tags s1
    end.
Proof.
  cbn [DeleteRemote_range]. unfold bind, ret.
  destruct (DeleteRemote spawn t s) as [[e|] s1]; reflexivity.
Qed.

Lemma DeleteRemote_range_until_error (tags : list string) (s : State World) :
  DeleteRemote_range spawn tags s
  = until_error (DeleteRemote spawn) BulkRemoteError tags s.
Proof.
  revert s. induction tags as [|t tags IH]; intros s; [reflexivity|].
  rewrite DeleteRemote_range_cons, until_error_cons.
  destruct (DeleteRemote spawn t s) as [[e|] s1]; [reflexivity | apply IH].
Qed.

Lemma DeleteLocal_range_rev1_until_error
  (tags : list string) (s : State World) :
  DeleteLocal_range_rev1 spawn tags s
  = until_error (DeleteLocal spawn)
      (fun tag e => PackageError (BulkLocalError tag e)) tags s.
Proof.
  revert s. induction tags as [|t tags IH]; intros s; [reflexivity|].
  rewrite until_error_cons. cbn [DeleteLocal_range_rev1]. unfold bind, ret.
  destruct (DeleteLocal spawn t s) as [[e|] s1]; [reflexivity | apply IH].
Qed.

Lemma DeleteRemote_range_rev1_until_error
  (tags : list string) (s : State World) :
  DeleteRemote_range_rev1 spawn tags s
  = until_error (DeleteRemote spawn)
      (fun tag e => PackageError (BulkRemoteError tag e)) tags s.
Proof.
  revert s. induction tags as [|t tags IH]; intros s; [reflexivity|].
  rewrite until_error_cons. cbn [DeleteRemote_range_rev1]. unfold bind, ret.
  destruct (DeleteRemote spawn t s) as [[e|] s1]; [reflexivity | apply IH].
Qed.

(** Wrapping the errors afterwards or in the loop is the same. *)
Lemma until_error_wrap {E R R' : Type}
  (f : string -> M World (option E)) (wrap : string -> E -> R)
  (g : R -> R') (tags : list string) (s : State World) :
  until_error f (fun tag e => g (wrap tag e)) tags s
  = (option_map g (fst (until_error f wrap tags s)),
     snd (until_error f wrap tags s)).
Proof.
  revert s. induction tags as [|t tags IH]; intros s; [reflexivity|].
  rewrite !until_error_cons.
  destruct (f t s) as [[e|] s1]; [reflexivity | apply IH].
Qed.

Lemma history_after_DeleteRemote (tags : list string) (s : State World) :
  history (after_each (DeleteRemote spawn) tags s)
  = (history s ++ map git_push_delete tags)%list.
Proof.
  revert s. induction tags as [|t tags IH]; intros s.
  - simpl. rewrite app_nil_r. reflexivity.
  - change (after_each (DeleteRemote spawn) (t :: tags) s)
      with (after_each (DeleteRemote spawn) tags
              (snd (DeleteRemote spawn t s))).
    rewrite IH, DeleteRemote_eq. simpl. rewrite <- app_assoc. reflexivity.
Qed.

End LoopInstances.

(** ** What the bulk deletions do, whatever the tool answers *)

Section BulkOutcome.

Context {ProcErr World : Type}.
Variable spawn : Cmd -> World -> ProcResult ProcErr * World.

Lemma DeleteLocal_error (t : string) (s : State World) (err : error ProcErr) :
  fst (DeleteLocal spawn t s) = Some err ->
  exists e, err = DeletionError e
            /\ Err (fst (spawn (git_tag_delete t) (world s))) = Some e.
Proof.
  rewrite DeleteLocal_eq. cbn [fst].
  destruct (Err (fst (spawn (git_tag_delete t) (world s)))) as [e|];
    [|discriminate].
  intros H. inversion H. exists e. split; reflexivity.
Qed.

Lemma DeleteRemote_error (t : string) (s : State World) (err : error ProcErr) :
  fst (DeleteRemote spawn t s) = Some err ->
  exists e, err = RemoteDeletionError e
            /\ Err (fst (spawn (git_push_delete t) (world s))) = Some e.
Proof.
  rewrite DeleteRemote_eq. cbn [fst].
  destruct (Err (fst (spawn (git_push_delete t) (world s)))) as [e|];
    [|discriminate].
  intros H. inversion H. exists e. split; reflexivity.
Qed.

Lemma firstn_nth_error_length {A : Type} (l : list A) (k : nat) (x : A) :
  nth_error l k = Some x -> S k <= length l.
Proof.
  intros H. apply Nat.le_succ_l. apply nth_error_Some. congruence.
Qed.

(** X1: whatever the tool answers, [DeleteLocalAll(p)] spawns the listing
    and then [git tag -d] for the first [n] of the names [FindMany(p)]
    returned, and nothing else: it never pushes.  It returns [nil] when
    every one of the names has been deleted; otherwise the deletion at
    some index [k] is the first that failed, [n] is [k+1], and the result
    is the bulk error that names that tag and wraps its deletion error.
    It never returns a not-found error. *)
Theorem DeleteLocalAll_outcome (p : string) (s : State World) :
  let tags := fst (fst (FindMany spawn p s)) in
  let s1 := snd (FindMany spawn p s) in
  let del := DeleteLocal spawn in
  exists n,
    n <= length tags
    /\ snd (DeleteLocalAll spawn p s) = after_each del (firstn n tags) s1
    /\ history (snd (DeleteLocalAll spawn p s))
       = (history s
          ++ git_tag_list p :: map git_tag_delete (firstn n tags))%list
    /\ match fst (DeleteLocalAll spawn p s) with
       | None =>
           n = length tags
           /\ forall j u, nth_error tags j = Some u ->
                fst (del u (after_each del (firstn j tags) s1)) = None
       | Some err =>
           exists k tag e,
             n = S k /\ nth_error tags k = Some tag
             /\ err = BulkLocalError tag (DeletionError e)
             /\ ~ NotFoundError err
             /\ (forall j u, j < k -> nth_error tags j = Some u ->
                   fst (del u (after_each del (firstn j tags) s1)) = None)
             /\ fst (del tag (after_each del (firstn k tags) s1))
                = Some (DeletionError e)
       end.
Proof.
  intros tags s1 del.
  assert (Hh : history s1 = (history s ++ [git_tag_list p])%list)
    by (unfold s1; rewrite FindMany_eq; reflexivity).
  rewrite DeleteLocalAll_eq. fold tags s1.
  rewrite DeleteLocal_range_until_error.
  pose proof (until_error_outcome del BulkLocalError tags s1) as Hout.
  fold del.
  destruct (fst (until_error del BulkLocalError tags s1)) as [err|].
  - destruct Hout as (k & tag & e0 & Hk & Hbefore & Hfail & Herr & Hend).
    destruct (DeleteLocal_error tag _ e0 Hfail) as (e & He0 & _).
    subst e0 err. exists (S k).
    split; [apply (firstn_nth_error_length tags k tag Hk)|].
    split; [exact Hend|]. split.
    + rewrite Hend. unfold del. rewrite history_after_DeleteLocal, Hh.
      rewrite <- app_assoc. reflexivity.
    + exists k, tag, e. repeat split; try assumption.
      intros [H | [c H]]; discriminate H.
  - destruct Hout as [Hall Hend]. exists (length tags).
    split; [apply Nat.le_refl|]. rewrite firstn_all.
    split; [exact Hend|]. split.
    + rewrite Hend. unfold del. rewrite history_after_DeleteLocal, Hh.
      rewrite <- app_assoc. reflexivity.
    + split; [reflexivity | exact Hall].
Qed.

(** X2: whatever the tool answers, [DeleteRemoteAll(p)] spawns the listing
    and then [git push origin --delete] for the first [n] of the names
    [FindMany(p)] returned, and nothing else: it never deletes a local
    tag.  It returns [nil] when every one of the names has been deleted on
    the remote; otherwise the deletion at some index [k] is the first that
    failed, [n] is [k+1], and the result is the remote bulk error that
    names that tag and wraps its remote deletion error. *)
Theorem DeleteRemoteAll_outcome (p : string) (s : State World) :
  let tags := fst (fst (FindMany spawn p s)) in
  let s1 := snd (FindMany spawn p s) in
  let del := DeleteRemote spawn in
  exists n,
    n <= length tags
    /\ snd (DeleteRemoteAll spawn p s) = after_each del (firstn n tags) s1
    /\ history (snd (DeleteRemoteAll spawn p s))
       = (history s
          ++ git_tag_list p :: map git_push_delete (firstn n tags))%list
    /\ match fst (DeleteRemoteAll spawn p s) with
       | None =>
           n = length tags
           /\ forall j u, nth_error tags j = Some u ->
                fst (del u (after_each del (firstn j tags) s1)) = None
       | Some err =>
           exists k tag e,
             n = S k /\ nth_error tags k = Some tag
             /\ err = BulkRemoteError tag (RemoteDeletionError e)
             /\ ~ NotFoundError err
             /\ (forall j u, j < k -> nth_error tags j = Some u ->
                   fst (del u (after_each del (firstn j tags) s1)) = None)
             /\ fst (del tag (after_each del (firstn k tags) s1))
                = Some (RemoteDeletionError e)
       end.
Proof.
  intros tags s1 del.
  assert (Hh : history s1 = (history s ++ [git_tag_list p])%list)
    by (unfold s1; rewrite FindMany_eq; reflexivity).
  rewrite DeleteRemoteAll_eq. fold tags s1.
  rewrite DeleteRemote_range_until_error.
  pose proof (until_error_outcome del BulkRemoteError tags s1) as Hout.
  fold del.
  destruct (fst (until_error del BulkRemoteError tags s1)) as [err|].
  - destruct Hout as (k & tag & e0 & Hk & Hbefore & Hfail & Herr & Hend).
    destruct (DeleteRemote_error tag _ e0 Hfail) as (e & He0 & _).
    subst e0 err. exists (S k).
    split; [apply (firstn_nth_error_length tags k tag Hk)|].
    split; [exact Hend|]. split.
    + rewrite Hend. unfold del. rewrite history_after_DeleteRemote, Hh.
      rewrite <- app_assoc. reflexivity.
    + exists k, tag, e. repeat split; try assumption.
      intros [H | [c H]]; discriminate H.
  - destruct Hout as [Hall Hend]. exists (length tags).
    split; [apply Nat.le_refl|]. rewrite firstn_all.
    split; [exact Hend|]. split.
    + rewrite Hend. unfold del. rewrite history_after_DeleteRemote, Hh.
      rewrite <- app_assoc. reflexivity.
    + split; [reflexivity | exact Hall].
Qed.

Lemma parse_listing_failed (r : ProcResult ProcErr) (e : ProcErr) :
  Err r = Some e -> parse_listing r = ([], Some (ListingError e)).
Proof. intros H. unfold parse_listing. rewrite H. reflexivity. Qed.

(** X3: when the listing process itself fails, [FindMany(p)] reports the
    failure, but [DeleteLocalAll(p)] and [DeleteRemoteAll(p)] of
    [delete.go] return [nil]: the failure is swallowed, and nothing is
    spawned after the listing. *)
Theorem bulk_delete_swallows_listing_failure
  (p : string) (s : State World) (e : ProcErr) :
  Err (fst (spawn (git_tag_list p) (world s))) = Some e ->
  fst (FindMany spawn p s) = ([], Some (ListingError e))
  /\ DeleteLocalAll spawn p s = (None, spawned spawn (git_tag_list p) s)
  /\ DeleteRemoteAll spawn p s = (None, spawned spawn (git_tag_list p) s).
Proof.
  intros He. split; [|split].
  - rewrite FindMany_eq. cbn [fst]. apply parse_listing_failed. exact He.
  - rewrite DeleteLocalAll_eq, FindMany_eq.
    rewrite (parse_listing_failed _ e He). reflexivity.
  - rewrite DeleteRemoteAll_eq, FindMany_eq.
    rewrite (parse_listing_failed _ e He). reflexivity.
Qed.

End BulkOutcome.

(** ** The two revisions of the bulk deletions *)

Section Revisions.

Context {ProcErr World : Type}.
Variable spawn : Cmd -> World -> ProcResult ProcErr * World.

(** X4: the [DeleteLocalAll] of the earlier revision in [gittag.go] and
    the one of [delete.go] differ only on a failed listing: the earlier one
    returns the listing error, the later one [nil].  When the listing
    process succeeds they leave the same state and return the same error,
    if any. *)
Theorem DeleteLocalAll_revisions (p : string) (s : State World) :
  let r := fst (spawn (git_tag_list p) (world s)) in
  (forall e,
     Err r = Some e ->
     DeleteLocalAll_rev1 spawn p s
     = (Some (ListFetchError e), spawned spawn (git_tag_list p) s)
     /\ DeleteLocalAll spawn p s = (None, spawned spawn (git_tag_list p) s))
  /\ (Err r = None ->
      DeleteLocalAll_rev1 spawn p s
      = (option_map PackageError (fst (DeleteLocalAll spawn p s)),
         snd (DeleteLocalAll spawn p s))).
Proof.
  intros r. split.
  - intros e He. split.
    + unfold DeleteLocalAll_rev1, bind, ret. fold (git_tag_list p).
      rewrite Output_eq. cbn [fst snd]. fold r. rewrite He. reflexivity.
    + rewrite DeleteLocalAll_eq, FindMany_eq. fold r.
      unfold parse_listing. rewrite He. reflexivity.
  - intros Hok. rewrite DeleteLocalAll_eq, FindMany_eq. fold r.
    unfold DeleteLocalAll_rev1, bind, ret. fold (git_tag_list p).
    rewrite Output_eq. cbn [fst snd]. fold r.
    unfold parse_listing. rewrite Hok.
    destruct (no_tags (Split (TrimSpace (Stdout r)) newline)); cbn [fst snd].
    + reflexivity.
    + rewrite DeleteLocal_range_rev1_until_error.
      rewrite DeleteLocal_range_until_error.
      apply (until_error_wrap (DeleteLocal spawn) BulkLocalError PackageError).
Qed.

(** X5: the same for the two revisions of [DeleteRemoteAll]. *)
Theorem DeleteRemoteAll_revisions (p : string) (s : State World) :
  let r := fst (spawn (git_tag_list p) (world s)) in
  (forall e,
     Err r = Some e ->
     DeleteRemoteAll_rev1 spawn p s
     = (Some (ListFetchError e), spawned spawn (git_tag_list p) s)
     /\ DeleteRemoteAll spawn p s = (None, spawned spawn (git_tag_list p) s))
  /\ (Err r = None ->
      DeleteRemoteAll_rev1 spawn p s
      = (option_map PackageError (fst (DeleteRemoteAll spawn p s)),
         snd (DeleteRemoteAll spawn p s))).
Proof.
  intros r. split.
  - intros e He. split.
    + unfold DeleteRemoteAll_rev1, bind, ret. fold (git_tag_list p).
      rewrite Output_eq. cbn [fst snd]. fold r. rewrite He. reflexivity.
    + rewrite DeleteRemoteAll_eq, FindMany_eq. fold r.
      unfold parse_listing. rewrite He. reflexivity.
  - intros Hok. rewrite DeleteRemoteAll_eq, FindMany_eq. fold r.
    unfold DeleteRemoteAll_rev1, bind, ret. fold (git_tag_list p).
    rewrite Output_eq. cbn [fst snd]. fold r.
    unfold parse_listing. rewrite Hok.
    destruct (no_tags (Split (TrimSpace (Stdout r)) newline)); cbn [fst snd].
    + reflexivity.
    + rewrite DeleteRemote_range_rev1_until_error.
      rewrite DeleteRemote_range_until_error.
      apply (until_error_wrap (DeleteRemote spawn) BulkRemoteError
               PackageError).
Qed.

End Revisions.

(** ** The composite operations *)

Section Composites.

Context {ProcErr World : Type}.
Variable spawn : Cmd -> World -> ProcResult ProcErr * World.

Lemma DeleteAllTags_eq (s : State World) :
  DeleteAllTags spawn s
  = match DeleteLocalAll spawn "*" s with
    | (Some e, s1) => (Some e, s1)
    | (None, s1) => DeleteRemoteAll spawn "*" s1
    end.
Proof.
  unfold DeleteAllTags, bind, ret.
  destruct (DeleteLocalAll spawn "*" s) as [[e|] s1]; [reflexivity|].
  destruct (DeleteRemoteAll spawn "*" s1) as [[e|] s2]; reflexivity.
Qed.

Lemma DeleteLocalAll_error_kind (p : string) (s : State World)
  (err : error ProcErr) :
  fst (DeleteLocalAll spawn p s) = Some err ->
  exists tag e,
    In tag (fst (fst (FindMany spawn p s)))
    /\ err = BulkLocalError tag (DeletionError e).
Proof.
  rewrite DeleteLocalAll_eq, DeleteLocal_range_until_error. intros H.
  pose proof (until_error_outcome (DeleteLocal spawn) BulkLocalError
                (fst (fst (FindMany spawn p s)))
                (snd (FindMany spawn p s))) as Hout.
  rewrite H in Hout.
  destruct Hout as (k & tag & e0 & Hk & _ & Hfail & Herr & _).
  destruct (DeleteLocal_error spawn tag _ e0 Hfail) as (e & He0 & _).
  exists tag, e. split; [apply (nth_error_In _ k Hk) | congruence].
Qed.

Lemma DeleteRemoteAll_error_kind (p : string) (s : State World)
  (err : error ProcErr) :
  fst (DeleteRemoteAll spawn p s) = Some err ->
  exists tag e,
    In tag (fst (fst (FindMany spawn p s)))
    /\ err = BulkRemoteError tag (RemoteDeletionError e).
Proof.
  rewrite DeleteRemoteAll_eq, DeleteRemote_range_until_error. intros H.
  pose proof (until_error_outcome (DeleteRemote spawn) BulkRemoteError
                (fst (fst (FindMany spawn p s)))
                (snd (FindMany spawn p s))) as Hout.
  rewrite H in Hout.
  destruct Hout as (k & tag & e0 & Hk & _ & Hfail & Herr & _).
  destruct (DeleteRemote_error spawn tag _ e0 Hfail) as (e & He0 & _).
  exists tag, e. split; [apply (nth_error_In _ k Hk) | congruence].
Qed.

Lemma DeleteRemoteAll_pushes (p : string) (s : State World) :
  exists n,
    n <= length (fst (fst (FindMany spawn p s)))
    /\ history (snd (DeleteRemoteAll spawn p s))
       = (history s
          ++ git_tag_list p
             :: map git_push_delete
                  (firstn n (fst (fst (FindMany spawn p s)))))%list.
Proof.
  set (tags := fst (fst (FindMany spawn p s))).
  set (s1 := snd (FindMany spawn p s)).
  assert (Hh : history s1 = (history s ++ [git_tag_list p])%list)
    by (unfold s1; rewrite FindMany_eq; reflexivity).
  rewrite DeleteRemoteAll_eq, DeleteRemote_range_until_error. fold tags s1.
  pose proof (until_error_outcome (DeleteRemote spawn) BulkRemoteError
                tags s1) as Hout.
  destruct (fst (until_error (DeleteRemote spawn) BulkRemoteError tags s1)).
  - destruct Hout as (k & tag & e0 & Hk & _ & _ & _ & Hend).
    exists (S k). split; [apply (firstn_nth_error_length tags k tag Hk)|].
    rewrite Hend, history_after_DeleteRemote, Hh, <- app_assoc. reflexivity.
  - destruct Hout as [_ Hend]. exists (length tags).
    split; [apply Nat.le_refl|].
    rewrite Hend, firstn_all, history_after_DeleteRemote, Hh, <- app_assoc.
    reflexivity.
Qed.

(** X6: [DeleteAllTags] runs [DeleteLocalAll("*")] first.  If that fails,
    the very error it returned is the result and nothing more is spawned.
    If it succeeds, the result and final state of [DeleteAllTags] are those
    of [DeleteRemoteAll("*")] run in the state the local deletion left. *)
Theorem DeleteAllTags_short_circuit (s : State World) :
  let s1 := snd (DeleteLocalAll spawn "*" s) in
  (forall e,
     fst (DeleteLocalAll spawn "*" s) = Some e ->
     DeleteAllTags spawn s = (Some e, s1))
  /\ (fst (DeleteLocalAll spawn "*" s) = None ->
      DeleteAllTags spawn s = DeleteRemoteAll spawn "*" s1).
Proof.
  intros s1. unfold s1. rewrite DeleteAllTags_eq.
  destruct (DeleteLocalAll spawn "*" s) as [[e0|] s']; cbn [fst snd]; split.
  - intros e He. congruence.
  - discriminate.
  - discriminate.
  - reflexivity.
Qed.

(** X7: the only errors [DeleteAllTags] returns are bulk errors that name
    a tag and wrap the error of its deletion, local or remote; it never
    returns a not-found error.  The names it deletes on the remote are
    taken from the listing of the local tags made after the local deletion:
    they are the first [n] names of that listing, so when that listing
    finds no tag nothing is deleted on the remote. *)
Theorem DeleteAllTags_outcome (s : State World) :
  let s1 := snd (DeleteLocalAll spawn "*" s) in
  let tags2 := fst (fst (FindMany spawn "*" s1)) in
  (forall err,
     fst (DeleteAllTags spawn s) = Some err ->
     ~ NotFoundError err
     /\ exists tag e,
          err = BulkLocalError tag (DeletionError e)
          \/ err = BulkRemoteError tag (RemoteDeletionError e))
  /\ (fst (DeleteLocalAll spawn "*" s) = None ->
      exists n,
        n <= length tags2
        /\ history (snd (DeleteAllTags spawn s))
           = (history s1
              ++ git_tag_list "*"
                 :: map git_push_delete (firstn n tags2))%list).
Proof.
  intros s1 tags2. unfold tags2, s1. rewrite DeleteAllTags_eq.
  destruct (DeleteLocalAll spawn "*" s) as [[e0|] s'] eqn:E; cbn [fst snd].
  - split; [|discriminate].
    intros err Herr. inversion Herr; subst err.
    destruct (DeleteLocalAll_error_kind "*" s e0) as (tag & e & _ & He).
    { rewrite E. reflexivity. }
    subst e0. split.
    + intros [H | [c H]]; discriminate H.
    + exists tag, e. left. reflexivity.
  - split.
    + intros err Herr.
      destruct (DeleteRemoteAll_error_kind "*" s' err Herr)
        as (tag & e & _ & He).
      subst err. split.
      * intros [H | [c H]]; discriminate H.
      * exists tag, e. right. reflexivity.
    + intros _. apply DeleteRemoteAll_pushes.
Qed.

Lemma CreateTag_eq (t : string) (message : list string) (s : State World) :
  CreateTag spawn t message s
  = match CreateLocal spawn t message s with
    | (Some e, s1) => (Some e, s1)
    | (None, s1) => CreateRemote spawn t s1
    end.
Proof.
  unfold CreateTag, bind, ret.
  destruct (CreateLocal spawn t message s) as [[e|] s1]; [reflexivity|].
  destruct (CreateRemote spawn t s1) as [[e|] s2]; reflexivity.
Qed.

Lemma DeleteTag_eq (t : string) (s : State World) :
  DeleteTag spawn t s
  = match DeleteLocal spawn t s with
    | (Some e, s1) => (Some e, s1)
    | (None, s1) => DeleteRemote spawn t s1
    end.
Proof.
  unfold DeleteTag, bind, ret.
  destruct (DeleteLocal spawn t s) as [[e|] s1]; [reflexivity|].
  destruct (DeleteRemote spawn t s1) as [[e|] s2]; reflexivity.
Qed.

(** X8: [CreateTag] returns [nil] exactly when the creation and the push
    both exit cleanly.  Otherwise its error is the creation error of the
    failed creation, or the push error of the failed push, and no other
    kind. *)
Theorem CreateTag_result (t : string) (message : list string)
  (s : State World) :
  let create := git_tag_create t (tagMessage t message) in
  let r1 := fst (spawn create (world s)) in
  let r2 := fst (spawn (git_push t) (snd (spawn create (world s)))) in
  (fst (CreateTag spawn t message s) = None
   <-> Err r1 = None /\ Err r2 = None)
  /\ (forall err,
        fst (CreateTag spawn t message s) = Some err ->
        (exists e, Err r1 = Some e /\ err = CreationError e)
        \/ (exists e, Err r1 = None /\ Err r2 = Some e /\ err = PushError e)).
Proof.
  intros create r1 r2. rewrite CreateTag_eq, CreateLocal_eq.
  fold create r1. destruct (Err r1) as [e1|] eqn:E1; cbn [option_map fst snd].
  - split.
    + split; [discriminate | intros [H _]; discriminate H].
    + intros err Herr. inversion Herr. left. exists e1. split; reflexivity.
  - rewrite CreateRemote_eq.
    change (fst (spawn (git_push t) (world (spawned spawn create s))))
      with r2.
    destruct (Err r2) as [e2|] eqn:E2; cbn [option_map].
    + split.
      * split; [discriminate | intros [_ H]; discriminate H].
      * intros err Herr. inversion Herr. right. exists e2.
        repeat split; reflexivity.
    + split.
      * split; [intros _; split; reflexivity | reflexivity].
      * discriminate.
Qed.

(** X9: [DeleteTag] returns [nil] exactly when the local and the remote
    deletion both exit cleanly.  Otherwise its error is the deletion error
    of the failed local deletion, or the remote deletion error of the
    failed remote deletion, and no other kind. *)
Theorem DeleteTag_result (t : string) (s : State World) :
  let r1 := fst (spawn (git_tag_delete t) (world s)) in
  let r2 := fst (spawn (git_push_delete t)
                   (snd (spawn (git_tag_delete t) (world s)))) in
  (fst (DeleteTag spawn t s) = None <-> Err r1 = None /\ Err r2 = None)
  /\ (forall err,
        fst (DeleteTag spawn t s) = Some err ->
        (exists e, Err r1 = Some e /\ err = DeletionError e)
        \/ (exists e, Err r1 = None /\ Err r2 = Some e
                      /\ err = RemoteDeletionError e)).
Proof.
  intros r1 r2. rewrite DeleteTag_eq, DeleteLocal_eq.
  fold r1. destruct (Err r1) as [e1|] eqn:E1; cbn [option_map fst snd].
  - split.
    + split; [discriminate | intros [H _]; discriminate H].
    + intros err Herr. inversion Herr. left. exists e1. split; reflexivity.
  - rewrite DeleteRemote_eq.
    change (fst (spawn (git_push_delete t)
                   (world (spawned spawn (git_tag_delete t) s))))
      with r2.
    destruct (Err r2) as [e2|] eqn:E2; cbn [option_map].
    + split.
      * split; [discriminate | intros [_ H]; discriminate H].
      * intros err Herr. inversion Herr. right. exists e2.
        repeat split; reflexivity.
    + split.
      * split; [intros _; split; reflexivity | reflexivity].
      * discriminate.
Qed.

Lemma append_nonempty (a b : string) : a <> "" -> a ++ b <> "".
Proof. destruct a; [contradiction | discriminate]. Qed.

(** X10: the annotation [CreateLocal] hands to git is never empty, and
    only the first of the optional messages counts: the call spawns the
    same command, with the same result, as the call with that first
    message alone. *)
Theorem CreateLocal_annotation_never_empty
  (t : string) (message : list string) (s : State World) :
  (exists a,
     a <> ""
     /\ history (snd (CreateLocal spawn t message s))
        = (history s ++ [git_tag_create t a])%list)
  /\ CreateLocal spawn t message s
     = CreateLocal spawn t (firstn 1 message) s.
Proof.
  split.
  - exists (tagMessage t message). split.
    + unfold tagMessage.
      destruct ((0 <? length message)%nat
                && negb (nth 0 message "" =? "")%string) eqn:E.
      * apply andb_true_iff in E. destruct E as [_ E].
        apply negb_true_iff in E. apply String.eqb_neq. exact E.
      * apply append_nonempty. discriminate.
    + rewrite CreateLocal_eq. reflexivity.
  - rewrite !CreateLocal_eq.
    assert (Hm : tagMessage t (firstn 1 message) = tagMessage t message)
      by (destruct message as [|m rest]; reflexivity).
    rewrite Hm. reflexivity.
Qed.

End Composites.

(** ** Reading the listing *)

Lemma Split_concat (s : string) (sep : ascii) :
  String.concat (String sep "") (Split s sep) = s.
Proof.
  induction s as [|c r IH]; [reflexivity|].
  cbn [Split]. pose proof (Split_not_nil r sep) as Hn.
  destruct (Ascii.eqb_spec c sep) as [E | E].
  - subst c. destruct (Split r sep) as [|h t]; [contradiction|].
    cbn [String.concat]. cbn [String.concat] in IH. rewrite IH.
    reflexivity.
  - destruct (Split r sep) as [|h [|h' t]]; [contradiction | |].
    + cbn [String.concat] in *. rewrite IH. reflexivity.
    + cbn [String.concat] in *. rewrite <- IH. reflexivity.
Qed.

Lemma Split_no_sep (s : string) (sep : ascii) :
  Forall (fun e => contains_byte sep e = false) (Split s sep).
Proof.
  induction s as [|c r IH]; [repeat constructor|].
  cbn [Split]. pose proof (Split_not_nil r sep) as Hn.
  destruct (Ascii.eqb c sep) eqn:E.
  - constructor; [reflexivity | exact IH].
  - destruct (Split r sep) as [|h t]; [contradiction|].
    inversion IH as [|? ? Hh Ht]; subst. constructor; [|exact Ht].
    cbn [contains_byte]. rewrite E, Hh. reflexivity.
Qed.

Lemma Split_app_sep (x z : string) (sep : ascii) :
  contains_byte sep x = false ->
  Split (x ++ String sep z) sep = x :: Split z sep.
Proof.
  induction x as [|c x IH]; intros H.
  - cbn [append Split]. rewrite Ascii.eqb_refl. reflexivity.
  - cbn [contains_byte] in H. apply orb_false_iff in H.
    destruct H as [Hc Hx]. cbn [append Split]. rewrite Hc, (IH Hx).
    reflexivity.
Qed.

(** Splitting undoes joining, for entries without the separator. *)
Lemma Split_concat_inverse (names : list string) (sep : ascii) :
  names <> [] ->
  Forall (fun n => contains_byte sep n = false) names ->
  Split (String.concat (String sep "") names) sep = names.
Proof.
  induction names as [|x [|y rest] IH]; intros Hne Hall; [contradiction| |].
  - inversion Hall; subst. cbn [String.concat]. apply Split_single.
    assumption.
  - inversion Hall as [|? ? Hx Hrest]; subst.
    change (String.concat (String sep "") (x :: y :: rest))
      with (x ++ String sep (String.concat (String sep "") (y :: rest))).
    rewrite (Split_app_sep _ _ _ Hx), IH; [reflexivity | discriminate |].
    exact Hrest.
Qed.

Lemma Split_hd (c : ascii) (r : string) (sep : ascii) :
  Ascii.eqb c sep = false ->
  exists h t, Split (String c r) sep = String c h :: t.
Proof.
  intros E. cbn [Split]. rewrite E.
  destruct (Split r sep) as [|h t]; eauto.
Qed.

Lemma Split_last (s : string) (c sep : ascii) :
  Ascii.eqb c sep = false ->
  last (Split (s ++ String c "") sep) "" <> "".
Proof.
  intros E. induction s as [|d s IH].
  - cbn [append Split]. rewrite E. cbn. discriminate.
  - cbn [append Split].
    pose proof (Split_not_nil (s ++ String c "") sep) as Hn.
    destruct (Ascii.eqb d sep).
    + destruct (Split (s ++ String c "") sep) as [|h t]; [contradiction|].
      exact IH.
    + destruct (Split (s ++ String c "") sep) as [|h [|h' t]];
        [contradiction | cbn; discriminate | exact IH].
Qed.

Section TrimEnds.

Variable p1 : ascii -> bool.
Variable p2 : ascii -> ascii -> bool.
Variable p3 : ascii -> ascii -> ascii -> bool.

(** What trimming leaves does not start with a byte [p1] accepts, and is
    the end of what it was given. *)
Lemma trim_with_head_bounded (n : nat) :
  forall l a l',
    length l <= n -> trim_with p1 p2 p3 l = a :: l' -> p1 a = false.
Proof.
  induction n as [|n IH]; intros l a l' Hlen H.
  - destruct l; [discriminate | simpl in Hlen; lia].
  - destruct l as [|a0 l1]; [discriminate|].
    rewrite trim_with_cons in H. simpl in Hlen.
    destruct (p1 a0) eqn:E1.
    { apply (IH l1 a l'); [lia | exact H]. }
    destruct l1 as [|b l2]; [inversion H; subst; exact E1|].
    destruct (p2 a0 b).
    { apply (IH l2 a l'); [simpl in Hlen; lia | exact H]. }
    destruct l2 as [|c l3]; [inversion H; subst; exact E1|].
    destruct (p3 a0 b c); [|inversion H; subst; exact E1].
    apply (IH l3 a l'); [simpl in Hlen; lia | exact H].
Qed.

Lemma trim_with_head (l : list ascii) (a : ascii) (l' : list ascii) :
  trim_with p1 p2 p3 l = a :: l' -> p1 a = false.
Proof. apply (trim_with_head_bounded (length l)). apply Nat.le_refl. Qed.

Lemma trim_with_suffix_bounded (n : nat) :
  forall l, length l <= n ->
            exists pre, l = (pre ++ trim_with p1 p2 p3 l)%list.
Proof.
  induction n as [|n IH]; intros l Hlen.
  - destruct l; [exists []; reflexivity | simpl in Hlen; lia].
  - destruct l as [|a l1]; [exists []; reflexivity|].
    rewrite trim_with_cons. simpl in Hlen.
    destruct (p1 a).
    { destruct (IH l1) as [pre Hpre]; [lia|].
      exists (a :: pre). cbn [app]. rewrite <- Hpre. reflexivity. }
    destruct l1 as [|b l2]; [exists []; reflexivity|].
    destruct (p2 a b).
    { destruct (IH l2) as [pre Hpre]; [simpl in Hlen; lia|].
      exists (a :: b :: pre). cbn [app]. rewrite <- Hpre. reflexivity. }
    destruct l2 as [|c l3]; [exists []; reflexivity|].
    destruct (p3 a b c); [|exists []; reflexivity].
    destruct (IH l3) as [pre Hpre]; [simpl in Hlen; lia|].
    exists (a :: b :: c :: pre). cbn [app]. rewrite <- Hpre. reflexivity.
Qed.

Lemma trim_with_suffix (l : list ascii) :
  exists pre, l = (pre ++ trim_with p1 p2 p3 l)%list.
Proof. apply (trim_with_suffix_bounded (length l)). apply Nat.le_refl. Qed.

(** A byte [x] that is in no group of two or three, except as its first
    byte, shields an untrimmable front from whatever follows. *)
Lemma trim_with_app_sep (x : ascii) (l rest : list ascii) :
  (forall a, p2 a x = false) ->
  (forall a b, p3 a b x = false) ->
  (forall a b, p3 a x b = false) ->
  l <> [] ->
  trim_with p1 p2 p3 l = l ->
  trim_with p1 p2 p3 (l ++ x :: rest) = (l ++ x :: rest)%list.
Proof.
  intros H2 H3 H3' Hne Hfix.
  destruct l as [|a l1]; [contradiction|].
  rewrite trim_with_cons in Hfix. cbn [app]. rewrite trim_with_cons.
  destruct (p1 a).
  { pose proof (trim_with_length p1 p2 p3 l1) as Hl. rewrite Hfix in Hl.
    simpl in Hl. lia. }
  destruct l1 as [|b l2]; cbn [app].
  { rewrite H2. destruct rest; [reflexivity|]. rewrite H3'. reflexivity. }
  destruct (p2 a b).
  { pose proof (trim_with_length p1 p2 p3 l2) as Hl. rewrite Hfix in Hl.
    simpl in Hl. lia. }
  destruct l2 as [|c l3]; cbn [app].
  { rewrite H3. reflexivity. }
  destruct (p3 a b c); [|reflexivity].
  pose proof (trim_with_length p1 p2 p3 l3) as Hl. rewrite Hfix in Hl.
  simpl in Hl. lia.
Qed.

End TrimEnds.

Lemma space1_not_newline (c : ascii) :
  space1 c = false -> Ascii.eqb c newline = false.
Proof.
  intros H. destruct (Ascii.eqb_spec c newline) as [E | E]; [|reflexivity].
  subst c. discriminate H.
Qed.

Lemma string_of_list_ascii_app (l1 l2 : list ascii) :
  string_of_list_ascii (l1 ++ l2)
  = string_of_list_ascii l1 ++ string_of_list_ascii l2.
Proof. induction l1 as [|c l1 IH]; simpl; [|rewrite IH]; reflexivity. Qed.

Lemma trim_back_prefix (m : list ascii) :
  exists suffix, m = (trim_back m ++ suffix)%list.
Proof.
  unfold trim_back, trim_front_rev.
  destruct (trim_with_suffix space1 (fun a b => space2 b a)
              (fun a b c => space3 c b a) (rev m)) as [pre Hpre].
  exists (rev pre). rewrite <- rev_app_distr, <- Hpre, rev_involutive.
  reflexivity.
Qed.

(** The trimmed string does not start with an ASCII white space byte. *)
Lemma TrimSpace_first (s : string) (c : ascii) (r : string) :
  TrimSpace s = String c r -> space1 c = false.
Proof.
  unfold TrimSpace. intros H.
  set (m := trim_front (list_ascii_of_string s)) in *.
  assert (Hb : trim_back m = c :: list_ascii_of_string r).
  { rewrite <- (list_ascii_of_string_of_list_ascii (trim_back m)), H.
    reflexivity. }
  destruct (trim_back_prefix m) as [suffix Hm]. rewrite Hb in Hm.
  cbn [app] in Hm. unfold m, trim_front in Hm.
  apply (trim_with_head _ _ _ _ _ _ Hm).
Qed.

(** Nor does it end with one. *)
Lemma TrimSpace_last (s : string) :
  TrimSpace s <> "" ->
  exists s' c, TrimSpace s = s' ++ String c "" /\ space1 c = false.
Proof.
  unfold TrimSpace, trim_back. intros Hne.
  set (m := trim_front (list_ascii_of_string s)) in *.
  destruct (trim_front_rev (rev m)) as [|c x] eqn:E.
  - exfalso. apply Hne. reflexivity.
  - exists (string_of_list_ascii (rev x)), c. split.
    + cbn [rev]. apply string_of_list_ascii_app.
    + unfold trim_front_rev in E. apply (trim_with_head _ _ _ _ _ _ E).
Qed.

Lemma TrimSpace_fixed_parts (t : string) :
  TrimSpace t = t ->
  trim_front (list_ascii_of_string t) = list_ascii_of_string t
  /\ trim_front_rev (rev (list_ascii_of_string t))
     = rev (list_ascii_of_string t).
Proof.
  intros Hfix. unfold TrimSpace in Hfix.
  set (l := list_ascii_of_string t) in *.
  assert (Hl : trim_back (trim_front l) = l).
  { rewrite <- (list_ascii_of_string_of_list_ascii (trim_back (trim_front l))).
    rewrite Hfix. reflexivity. }
  assert (Hfront : trim_front l = l).
  { destruct (trim_with_fixed_or_shorter space1 space2 space3 l) as [H | H];
      [exact H|].
    pose proof (trim_back_length (trim_front l)) as Hb. rewrite Hl in Hb.
    unfold trim_front in Hb. lia. }
  split; [exact Hfront|].
  rewrite Hfront in Hl. unfold trim_back in Hl.
  rewrite <- Hl at 2. rewrite rev_involutive. reflexivity.
Qed.

Lemma space2_newline_first (a : ascii) : space2 newline a = false.
Proof. reflexivity. Qed.

Lemma space3_newline_first (a b : ascii) : space3 newline b a = false.
Proof. reflexivity. Qed.

Lemma space3_newline_middle (a b : ascii) : space3 a newline b = false.
Proof.
  unfold space3.
  repeat match goal with
         | |- context [byte_is ?n a] => destruct (byte_is n a)
         end; reflexivity.
Qed.

Lemma append_assoc (a b c : string) : (a ++ b) ++ c = a ++ (b ++ c).
Proof. induction a as [|x a IH]; simpl; [|rewrite IH]; reflexivity. Qed.

Lemma append_empty_r (a : string) : a ++ "" = a.
Proof. induction a as [|x a IH]; simpl; [|rewrite IH]; reflexivity. Qed.

(** The joined names start with the first name; a newline follows it
    once the final newline is added. *)
Lemma concat_first (first : string) (rest : list string) :
  exists more,
    String.concat (String newline "") (first :: rest) ++ String newline ""
    = first ++ String newline more.
Proof.
  destruct rest as [|y rest].
  - exists "". reflexivity.
  - exists (String.concat (String newline "") (y :: rest)
            ++ String newline "").
    change (String.concat (String newline "") (first :: y :: rest))
      with (first ++ String newline
                       (String.concat (String newline "") (y :: rest))).
    rewrite append_assoc. reflexivity.
Qed.

(** They end with the last name, after nothing or after a newline. *)
Lemma concat_last (names : list string) :
  names <> [] ->
  String.concat (String newline "") names = last names ""
  \/ exists pre,
       String.concat (String newline "") names
       = (pre ++ String newline "") ++ last names "".
Proof.
  induction names as [|x [|y rest] IH]; intros Hne; [contradiction| |].
  - left. reflexivity.
  - right.
    change (String.concat (String newline "") (x :: y :: rest))
      with (x ++ String newline
                   (String.concat (String newline "") (y :: rest))).
    change (last (x :: y :: rest) "") with (last (y :: rest) "").
    destruct IH as [H | [pre H]]; [discriminate | |].
    + exists x. rewrite H, append_assoc. reflexivity.
    + exists (x ++ String newline pre). rewrite H, !append_assoc.
      reflexivity.
Qed.

(** Trimming a listing whose first name has no white space in front and
    whose last name has none behind removes the final newline only. *)
Lemma TrimSpace_listing (names : list string) :
  names <> [] ->
  hd "" names <> "" -> TrimLeftSpace (hd "" names) = hd "" names ->
  last names "" <> "" -> TrimRightSpace (last names "") = last names "" ->
  TrimSpace (String.concat (String newline "") names ++ String newline "")
  = String.concat (String newline "") names.
Proof.
  intros Hne Hfirst Hfirst_fix Hlast Hlast_fix.
  set (joined := String.concat (String newline "") names).
  assert (Hfront : trim_front (list_ascii_of_string (hd "" names))
                   = list_ascii_of_string (hd "" names)).
  { unfold TrimLeftSpace in Hfirst_fix.
    rewrite <- (list_ascii_of_string_of_list_ascii
                  (trim_front (list_ascii_of_string (hd "" names)))).
    rewrite Hfirst_fix. reflexivity. }
  assert (Hback : trim_front_rev (rev (list_ascii_of_string (last names "")))
                  = rev (list_ascii_of_string (last names ""))).
  { unfold TrimRightSpace in Hlast_fix.
    assert (H : trim_back (list_ascii_of_string (last names ""))
                = list_ascii_of_string (last names "")).
    { rewrite <- (list_ascii_of_string_of_list_ascii
                    (trim_back (list_ascii_of_string (last names "")))).
      rewrite Hlast_fix. reflexivity. }
    unfold trim_back in H. rewrite <- H at 2. rewrite rev_involutive.
    reflexivity. }
  assert (Hf : trim_front (list_ascii_of_string (joined ++ String newline ""))
               = list_ascii_of_string (joined ++ String newline "")).
  { unfold joined. destruct names as [|first rest]; [contradiction|].
    destruct (concat_first first rest) as [more Hmore]. rewrite Hmore.
    rewrite list_ascii_of_string_app. cbn [list_ascii_of_string].
    apply trim_with_app_sep.
    - apply space2_newline.
    - apply space3_newline.
    - apply space3_newline_middle.
    - cbn [hd] in Hfirst. destruct first; [contradiction | discriminate].
    - exact Hfront. }
  assert (Hb : trim_front_rev (rev (list_ascii_of_string joined))
               = rev (list_ascii_of_string joined)).
  { assert (Hlne : rev (list_ascii_of_string (last names "")) <> []).
    { destruct (last names "") as [|c l]; [contradiction|].
      cbn [list_ascii_of_string rev]. intros H.
      apply app_eq_nil in H. destruct H as [_ H]. discriminate H. }
    unfold joined. destruct (concat_last names Hne) as [H | [pre H]].
    - rewrite H. exact Hback.
    - rewrite H, !list_ascii_of_string_app. cbn [list_ascii_of_string].
      rewrite !rev_app_distr. cbn [rev app]. unfold trim_front_rev.
      apply trim_with_app_sep.
      + intros a. reflexivity.
      + intros a b. reflexivity.
      + intros a b. apply space3_newline_middle.
      + exact Hlne.
      + exact Hback. }
  unfold TrimSpace. rewrite Hf, list_ascii_of_string_app.
  cbn [list_ascii_of_string]. rewrite trim_back_snoc_newline.
  unfold trim_back. rewrite Hb, rev_involutive.
  apply string_of_list_ascii_of_string.
Qed.

Section Listing.

Context {ProcErr World : Type}.
Variable spawn : Cmd -> World -> ProcResult ProcErr * World.

(** X11: [FindMany(p)] succeeds exactly when the listing process exits
    cleanly and its trimmed output is not empty; when it fails, the error
    is a not-found error and the list is [nil].  When it succeeds, the list
    is not empty, no entry has a newline in it, the entries joined by
    newlines are the trimmed output (nothing else is removed from them),
    and the first and the last entry are not empty. *)
Theorem FindMany_lines (p : string) (s : State World) :
  let r := fst (spawn (git_tag_list p) (world s)) in
  let tags := fst (fst (FindMany spawn p s)) in
  let err := snd (fst (FindMany spawn p s)) in
  (err = None <-> Err r = None /\ TrimSpace (Stdout r) <> "")
  /\ (forall e, err = Some e -> NotFoundError e /\ tags = [])
  /\ (err = None ->
      tags <> []
      /\ Forall (fun tag => contains_byte newline tag = false) tags
      /\ String.concat (String newline "") tags = TrimSpace (Stdout r)
      /\ hd "" tags <> ""
      /\ last tags "" <> "").
Proof.
  intros r tags err. unfold tags, err. rewrite FindMany_eq. fold r.
  cbn [fst snd].
  destruct (parse_listing_cases r)
    as [(e & He & Hp) | [(He & Ht & Hp) | (He & Ht & Hp)]];
    rewrite Hp; cbn [fst snd].
  - split; [|split].
    + split; [discriminate | intros [H _]; congruence].
    + intros e' H. inversion H. split; [|reflexivity].
      right. exists e. reflexivity.
    + discriminate.
  - split; [|split].
    + split; [discriminate | intros [_ H]; contradiction].
    + intros e' H. inversion H. split; [|reflexivity]. left. reflexivity.
    + discriminate.
  - split; [|split].
    + split; [intros _; split; assumption | reflexivity].
    + discriminate.
    + intros _. split; [apply Split_not_nil|].
      split; [apply Split_no_sep|]. split; [apply Split_concat|].
      split.
      * destruct (TrimSpace (Stdout r)) as [|c rest] eqn:E; [contradiction|].
        pose proof (space1_not_newline c (TrimSpace_first _ c rest E)) as Hc.
        destruct (Split_hd c rest newline Hc) as (h & t & Hs).
        rewrite Hs. discriminate.
      * destruct (TrimSpace_last _ Ht) as (s' & c & Hs & Hc).
        rewrite Hs. apply Split_last. apply space1_not_newline. exact Hc.
Qed.

(** X12: [FindOne(p)] returns the empty string exactly when it fails.
    The tag it returns on success has no newline in it, starts with a byte
    that is not ASCII white space, and is the trimmed output of the
    listing up to its first newline. *)
Theorem FindOne_tag_shape (p : string) (s : State World) :
  let r := fst (spawn (git_tag_list p) (world s)) in
  let tag := fst (fst (FindOne spawn p s)) in
  let err := snd (fst (FindOne spawn p s)) in
  (tag = "" <-> err <> None)
  /\ (err = None ->
      contains_byte newline tag = false
      /\ (exists c rest, tag = String c rest /\ space1 c = false)
      /\ (TrimSpace (Stdout r) = tag
          \/ exists more, TrimSpace (Stdout r) = tag ++ String newline more)).
Proof.
  intros r tag err. unfold tag, err. rewrite FindOne_eq. fold r.
  cbn [fst snd].
  destruct (parse_listing_cases r)
    as [(e & He & Hp) | [(He & Ht & Hp) | (He & Ht & Hp)]];
    rewrite Hp; cbn [fst snd nth].
  - split; [|discriminate]. split; [discriminate | reflexivity].
  - split; [|discriminate]. split; [discriminate | reflexivity].
  - destruct (TrimSpace (Stdout r)) as [|c rest] eqn:E; [contradiction|].
    pose proof (TrimSpace_first _ c rest E) as Hspace.
    pose proof (space1_not_newline c Hspace) as Hc.
    destruct (Split_hd c rest newline Hc) as (h & t & Hs).
    pose proof (Split_no_sep (String c rest) newline) as Hno.
    pose proof (Split_concat (String c rest) newline) as Hjoin.
    rewrite Hs in *. cbn [nth]. split.
    + split; [discriminate | intros H; contradiction H; reflexivity].
    + intros _. split; [inversion Hno; assumption|].
      split; [exists c, h; split; [reflexivity | exact Hspace]|].
      destruct t as [|h' t].
      * left. symmetry. exact Hjoin.
      * right. exists (String.concat (String newline "") (h' :: t)).
        symmetry. exact Hjoin.
Qed.

(** X13: when the listing process exits cleanly and prints the names
    [names], each followed by a newline, where no name has a newline in it,
    the first name is not empty and has no white space in front, and the
    last name is not empty and has none behind, [FindMany(p)] returns
    exactly [names] and [FindOne(p)] returns the first of them.  White
    space behind the first name, in front of the last, and anywhere in or
    around the names between them is kept. *)
Theorem FindMany_reads_listing
  (p : string) (s : State World) (names : list string) :
  let r := fst (spawn (git_tag_list p) (world s)) in
  Err r = None ->
  Stdout r
  = String.concat (String newline "") names ++ String newline "" ->
  names <> [] ->
  Forall (fun n => contains_byte newline n = false) names ->
  hd "" names <> "" -> TrimLeftSpace (hd "" names) = hd "" names ->
  last names "" <> "" -> TrimRightSpace (last names "") = last names "" ->
  fst (FindMany spawn p s) = (names, None)
  /\ fst (FindOne spawn p s) = (hd "" names, None).
Proof.
  intros r Hok Hout Hne Hlines Hfirst Hfirst_fix Hlast Hlast_fix.
  assert (Hp : parse_listing r = (names, None)).
  { unfold parse_listing. rewrite Hok, Hout.
    rewrite (TrimSpace_listing names Hne Hfirst Hfirst_fix Hlast Hlast_fix).
    rewrite (Split_concat_inverse names newline Hne Hlines).
    assert (Hno : no_tags names = false).
    { destruct names as [|x [|y rest]]; [contradiction | |reflexivity].
      cbn [hd] in Hfirst. unfold no_tags. cbn.
      destruct (String.eqb_spec x ""); [contradiction | reflexivity]. }
    rewrite Hno. reflexivity. }
  split.
  - rewrite FindMany_eq. fold r. rewrite Hp. reflexivity.
  - rewrite FindOne_eq. fold r. rewrite Hp. cbn [fst snd].
    destruct names; [contradiction | reflexivity].
Qed.

End Listing.

(** ** Swallowed failures and error texts *)

Section Reports.

Context {ProcErr World : Type}.
Variable spawn : Cmd -> World -> ProcResult ProcErr * World.

(** X14: the message of an error of [DeleteLocalAll(p)] is the bulk
    prefix, the name of a tag that [FindMany(p)] returned, and the message
    of the local deletion error with the text of the process error; the
    message of an error of [DeleteRemoteAll(p)] is built in the same way
    from the remote prefixes. *)
Theorem bulk_error_messages
  (describe : ProcErr -> string) (p : string) (s : State World)
  (err : error ProcErr) :
  (fst (DeleteLocalAll spawn p s) = Some err ->
   exists tag e,
     In tag (fst (fst (FindMany spawn p s)))
     /\ Error describe err
        = "删除标签 " ++ tag ++ " 失败: 删除本地标签失败: " ++ describe e)
  /\ (fst (DeleteRemoteAll spawn p s) = Some err ->
      exists tag e,
        In tag (fst (fst (FindMany spawn p s)))
        /\ Error describe err
           = "删除远程标签 " ++ tag ++ " 失败: 删除远程标签失败: "
             ++ describe e).
Proof.
  split; intros H.
  - destruct (DeleteLocalAll_error_kind spawn p s err H)
      as (tag & e & Hin & He).
    exists tag, e. split; [exact Hin|]. subst err. reflexivity.
  - destruct (DeleteRemoteAll_error_kind spawn p s err H)
      as (tag & e & Hin & He).
    exists tag, e. split; [exact Hin|]. subst err. reflexivity.
Qed.

(** X15: when the listing fails both before and after the local
    deletion, as it does when git cannot be run at all, [DeleteAllTags]
    still returns [nil]; it has spawned the two listings and nothing
    else. *)
Theorem DeleteAllTags_hides_listing_failures
  (s : State World) (e1 e2 : ProcErr) :
  let s1 := spawned spawn (git_tag_list "*") s in
  Err (fst (spawn (git_tag_list "*") (world s))) = Some e1 ->
  Err (fst (spawn (git_tag_list "*") (world s1))) = Some e2 ->
  DeleteAllTags spawn s = (None, spawned spawn (git_tag_list "*") s1)
  /\ history (snd (DeleteAllTags spawn s))
     = (history s ++ [git_tag_list "*"; git_tag_list "*"])%list.
Proof.
  intros s1 H1 H2.
  assert (Hlocal : DeleteLocalAll spawn "*" s = (None, s1)).
  { rewrite DeleteLocalAll_eq, FindMany_eq.
    rewrite (parse_listing_failed _ e1 H1). reflexivity. }
  assert (Hremote : DeleteRemoteAll spawn "*" s1
                    = (None, spawned spawn (git_tag_list "*") s1)).
  { rewrite DeleteRemoteAll_eq, FindMany_eq.
    rewrite (parse_listing_failed _ e2 H2). reflexivity. }
  rewrite DeleteAllTags_eq, Hlocal, Hremote. split; [reflexivity|].
  cbn [snd]. unfold s1, spawned. cbn [history].
  rewrite <- app_assoc. reflexivity.
Qed.

End Reports.

(** X16: the first half of the emptiness test of [FindOne] and
    [FindMany], [len(tags) == 0], never holds, since splitting gives at
    least one entry; the test holds exactly when the trimmed output is
    empty, and then the one entry is the empty string. *)
Theorem empty_listing_test (output : string) :
  let tags := Split (TrimSpace output) newline in
  length tags <> 0
  /\ (no_tags tags = true <-> TrimSpace output = "")
  /\ (no_tags tags = true -> tags = [""]).
Proof.
  intros tags. unfold tags. split; [|split].
  - pose proof (Split_not_nil (TrimSpace output) newline) as H.
    destruct (Split (TrimSpace output) newline); [contradiction|].
    discriminate.
  - apply no_tags_Split.
  - intros H. apply no_tags_Split in H. rewrite H. reflexivity.
Qed.

(** ** The further properties at work on concrete repositories *)

Lemma DeleteLocalAll_outcome_witness :
  exists n,
    n <= 2
    /\ history (snd (DeleteLocalAll SimGit.spawn "*" (SimGit.start repo_nbsp)))
       = git_tag_list "*" :: map git_tag_delete (firstn n ["v1"; "v1"]).
Proof.
  destruct (DeleteLocalAll_outcome SimGit.spawn "*" (SimGit.start repo_nbsp))
    as (n & Hn & _ & Hh & _).
  exists n. split; [exact Hn | exact Hh].
Defined.

Lemma DeleteRemoteAll_outcome_witness :
  exists n,
    n <= 2
    /\ history (snd (DeleteRemoteAll SimGit.spawn "v1.*"
                       (SimGit.start repo_cut_off)))
       = git_tag_list "v1.*"
         :: map git_push_delete (firstn n ["v1.0.0"; "v1.1.0"]).
Proof.
  destruct (DeleteRemoteAll_outcome SimGit.spawn "v1.*"
              (SimGit.start repo_cut_off))
    as (n & Hn & _ & Hh & _).
  exists n. split; [exact Hn | exact Hh].
Defined.

Lemma bulk_delete_swallows_listing_failure_witness :
  fst (FindMany SimGit.spawn "-x" (SimGit.start repo_releases))
  = ([], Some (ListingError (SimGit.ExitStatus 129)))
  /\ DeleteLocalAll SimGit.spawn "-x" (SimGit.start repo_releases)
     = (None, MkState repo_releases [git_tag_list "-x"])
  /\ DeleteRemoteAll SimGit.spawn "-x" (SimGit.start repo_releases)
     = (None, MkState repo_releases [git_tag_list "-x"]).
Proof.
  apply (bulk_delete_swallows_listing_failure SimGit.spawn "-x"
           (SimGit.start repo_releases) (SimGit.ExitStatus 129)).
  reflexivity.
Defined.

Lemma DeleteLocalAll_revisions_witness :
  DeleteLocalAll_rev1 SimGit.spawn "-x" (SimGit.start repo_releases)
  = (Some (ListFetchError (SimGit.ExitStatus 129)),
     MkState repo_releases [git_tag_list "-x"])
  /\ DeleteLocalAll_rev1 SimGit.spawn "v1.*" (SimGit.start repo_releases)
     = (None,
        MkState (SimGit.MkRepo ["v2.0.0"] ["v1.0.0"] true)
          [git_tag_list "v1.*"; git_tag_delete "v1.0.0";
           git_tag_delete "v1.1.0"]).
Proof.
  split.
  - apply (proj1 (DeleteLocalAll_revisions SimGit.spawn "-x"
                    (SimGit.start repo_releases))
             (SimGit.ExitStatus 129)).
    reflexivity.
  - apply (proj2 (DeleteLocalAll_revisions SimGit.spawn "v1.*"
                    (SimGit.start repo_releases))).
    reflexivity.
Defined.

Lemma DeleteRemoteAll_revisions_witness :
  DeleteRemoteAll_rev1 SimGit.spawn "-x" (SimGit.start repo_releases)
  = (Some (ListFetchError (SimGit.ExitStatus 129)),
     MkState repo_releases [git_tag_list "-x"])
  /\ DeleteRemoteAll_rev1 SimGit.spawn "v1.0.*" (SimGit.start repo_releases)
     = (None,
        MkState (SimGit.MkRepo ["v1.0.0"; "v1.1.0"; "v2.0.0"] [] true)
          [git_tag_list "v1.0.*"; git_push_delete "v1.0.0"]).
Proof.
  split.
  - apply (proj1 (DeleteRemoteAll_revisions SimGit.spawn "-x"
                    (SimGit.start repo_releases))
             (SimGit.ExitStatus 129)).
    reflexivity.
  - apply (proj2 (DeleteRemoteAll_revisions SimGit.spawn "v1.0.*"
                    (SimGit.start repo_releases))).
    reflexivity.
Defined.

Lemma DeleteAllTags_short_circuit_witness :
  DeleteAllTags SimGit.spawn (SimGit.start repo_nbsp)
  = (Some (BulkLocalError "v1" (DeletionError (SimGit.ExitStatus 1))),
     MkState (SimGit.MkRepo ["v1" ++ nbsp] [] true)
       [git_tag_list "*"; git_tag_delete "v1"; git_tag_delete "v1"]).
Proof.
  apply (proj1 (DeleteAllTags_short_circuit SimGit.spawn
                  (SimGit.start repo_nbsp))
           (BulkLocalError "v1" (DeletionError (SimGit.ExitStatus 1)))).
  reflexivity.
Defined.

Lemma DeleteAllTags_outcome_witness :
  exists n,
    n <= 0
    /\ history (snd (DeleteAllTags SimGit.spawn (SimGit.start repo_cut_off)))
       = ([git_tag_list "*"; git_tag_delete "v1.0.0";
           git_tag_delete "v1.1.0"; git_tag_list "*"]
          ++ map git_push_delete (firstn n []))%list.
Proof.
  destruct (proj2 (DeleteAllTags_outcome SimGit.spawn
                     (SimGit.start repo_cut_off)) eq_refl)
    as (n & Hn & Hh).
  exists n. split; [exact Hn | exact Hh].
Defined.

Lemma CreateTag_result_witness :
  fst (CreateTag SimGit.spawn "v3.0.0" ["Third release"]
         (SimGit.start repo_releases))
  = None.
Proof.
  apply (proj1 (CreateTag_result SimGit.spawn "v3.0.0" ["Third release"]
                  (SimGit.start repo_releases))).
  split; reflexivity.
Defined.

Lemma DeleteTag_result_witness :
  fst (DeleteTag SimGit.spawn "v1.0.0" (SimGit.start repo_releases)) = None.
Proof.
  apply (proj1 (DeleteTag_result SimGit.spawn "v1.0.0"
                  (SimGit.start repo_releases))).
  split; reflexivity.
Defined.

Lemma CreateLocal_annotation_never_empty_witness :
  CreateLocal SimGit.spawn "v3.0.0" ["Third release"; "ignored"]
    (SimGit.start repo_releases)
  = CreateLocal SimGit.spawn "v3.0.0" ["Third release"]
      (SimGit.start repo_releases).
Proof.
  exact (proj2 (CreateLocal_annotation_never_empty SimGit.spawn "v3.0.0"
                  ["Third release"; "ignored"] (SimGit.start repo_releases))).
Defined.

Lemma FindMany_lines_witness :
  fst (FindMany SimGit.spawn "v1.*" (SimGit.start repo_releases))
  = (["v1.0.0"; "v1.1.0"], None)
  /\ String.concat (String newline "") ["v1.0.0"; "v1.1.0"]
     = TrimSpace (Stdout (fst (SimGit.spawn (git_tag_list "v1.*")
                                 repo_releases))).
Proof.
  split; [reflexivity|].
  apply (proj2 (proj2 (FindMany_lines SimGit.spawn "v1.*"
                         (SimGit.start repo_releases)))).
  reflexivity.
Defined.

Lemma FindOne_tag_shape_witness :
  snd (fst (FindOne SimGit.spawn "v*" (SimGit.start repo_releases))) = None
  /\ contains_byte newline
       (fst (fst (FindOne SimGit.spawn "v*" (SimGit.start repo_releases))))
     = false.
Proof.
  split; [reflexivity|].
  apply (proj2 (FindOne_tag_shape SimGit.spawn "v*"
                  (SimGit.start repo_releases))).
  reflexivity.
Defined.

Lemma FindMany_reads_listing_witness :
  (fst (FindMany SimGit.spawn "v1.*" (SimGit.start repo_releases))
   = (["v1.0.0"; "v1.1.0"], None)
   /\ fst (FindOne SimGit.spawn "v1.*" (SimGit.start repo_releases))
      = ("v1.0.0", None))
  /\ (fst (FindMany
             (prints ("v1 " ++ String newline (" v2" ++ String newline "")))
             "*" (MkState tt []))
      = (["v1 "; " v2"], None)
      /\ fst (FindOne
                (prints ("v1 " ++ String newline (" v2" ++ String newline "")))
                "*" (MkState tt []))
         = ("v1 ", None)).
Proof.
  split.
  - apply (FindMany_reads_listing SimGit.spawn "v1.*"
             (SimGit.start repo_releases) ["v1.0.0"; "v1.1.0"]);
      solve [reflexivity | discriminate | repeat constructor].
  - apply (FindMany_reads_listing
             (prints ("v1 " ++ String newline (" v2" ++ String newline "")))
             "*" (MkState tt []) ["v1 "; " v2"]);
      solve [reflexivity | discriminate | repeat constructor].
Defined.

Lemma bulk_error_messages_witness :
  exists tag e,
    In tag ["v1"; "v1"]
    /\ Error SimGit.ExitError_Error
         (BulkLocalError "v1" (DeletionError (SimGit.ExitStatus 1)))
       = "删除标签 " ++ tag ++ " 失败: 删除本地标签失败: "
         ++ SimGit.ExitError_Error e.
Proof.
  exact (proj1 (bulk_error_messages SimGit.spawn SimGit.ExitError_Error "*"
                  (SimGit.start repo_nbsp)
                  (BulkLocalError "v1" (DeletionError (SimGit.ExitStatus 1))))
           eq_refl).
Defined.

Lemma DeleteAllTags_hides_listing_failures_witness :
  DeleteAllTags missing_git (MkState tt [])
  = (None, MkState tt [git_tag_list "*"; git_tag_list "*"]).
Proof.
  apply (DeleteAllTags_hides_listing_failures missing_git (MkState tt [])
           "exec: git: executable file not found in $PATH"
           "exec: git: executable file not found in $PATH");
    reflexivity.
Defined.

Lemma empty_listing_test_witness :
  Split (TrimSpace (String newline "")) newline = [""].
Proof.
  apply (proj2 (proj2 (empty_listing_test (String newline "")))).
  reflexivity.
Defined.
